(** * go-ipfs-cmds: the executor and the HTTP bridge

    A shallow embedding of [executor.go] and [http/handler.go], together
    with the request-construction contract that the package tests
    exercise.

    Go interfaces whose implementations live outside the embedded files
    (response emitters, the environment, user callbacks) are modelled by
    what the embedded code can observe of them: the calls it makes on them,
    in order, and the values they hand back. *)

From Stdlib Require Import ZArith Ascii String List Lia.
From stdpp Require Import base option list strings gmap fin_maps.

Local Open Scope string_scope.
Local Open Scope list_scope.

(** ** Values shared by both packages *)

(** [cmds.EncodingType] is a named string type. *)
Abbreviation EncodingType := string.

(** Go [error] values.  [runtimeError] stands for the errors the Go runtime
    raises itself (failed type assertion, nil dereference); they implement
    [error] like any other. *)
Inductive error :=
  | errorString (msg : string)
  | runtimeError (msg : string).

(** [e.Error()] *)
Definition Error (e : error) : string :=
  match e with
  | errorString msg => msg
  | runtimeError msg => msg
  end.

(** [cmdkit.ErrorType] *)
Inductive ErrorType := ErrNormal | ErrClient | ErrFatal.

(** [interface{}] values that travel through option maps and emitters. *)
Inductive Value :=
  | VNil
  | VBool (b : bool)
  | VInt (i : Z)
  | VString (s : string)
  | VError (Message : string) (Code : ErrorType).   (* cmdkit.Error{...} *)

(** A non-nil value handed to [panic]. *)
Inductive panic_value :=
  | PanicError (e : error)
  | PanicOther (s : string).

(** The type assertion [v.(error)] of the recovery guard. *)
Definition as_error (v : panic_value) : option error :=
  match v with
  | PanicError e => Some e
  | PanicOther _ => None
  end.

(** [time.Duration] is an int64 count of nanoseconds. *)
Abbreviation Duration := Z.

(** [context.Context] values, by construction history.  [ctxNil] is the nil
    interface value of an unassigned [var ctx context.Context]. *)
Inductive context :=
  | ctxNil
  | ctxBackground
  | ctxTODO
  | ctxWithCancel (parent : context)
  | ctxWithTimeout (parent : context) (timeout : Duration).

(** The caller-supplied environment, [interface{}] in the source.  The code
    only ever asks it for two optional capabilities. *)
Record Env := {
  env_Context : option context;   (* Some c iff env implements contexter *)
  env_AddRequest : bool           (* true iff env implements requestAdder *)
}.

(** An installed encoder; the embedded code never looks inside one. *)
Record EncoderInstance := { enc_label : string }.

(** The fields of [cmds.Request] other than [Command]. *)
Record ReqData := {
  Context : context;
  Options : gmap string Value;
  Arguments : list string
}.

Definition set_Context (c : context) (d : ReqData) : ReqData :=
  {| Context := c; Options := Options d; Arguments := Arguments d |}.

(** ** The executor ([executor.go]) *)

Module Executor.

(** Method calls made on response emitters and on the package logger. *)
Inductive Call :=
  | SetEncoder (re : nat) (enc : EncoderInstance)
  | SetLength (re : nat) (n : Z)
  | Emit (re : nat) (v : Value)
  | SetError (re : nat) (msg : string) (code : ErrorType)
  | Close (re : nat)
  | Errorf (format : string) (args : list string).

(** Who made the call. *)
Inductive Actor := ByExecute | ByPreRun | ByPostRun | ByRun.

Definition Event : Type := Actor * Call.

(** What a call into user code did: the calls it made, and whether it came
    back or panicked. *)
Inductive Result (A : Type) :=
  | Returned (a : A)
  | Panicked (v : panic_value).
Arguments Returned {A} a.
Arguments Panicked {A} v.

Record Effect (A : Type) := {
  calls : list Call;
  result : Result A
}.
Arguments calls {A} _.
Arguments result {A} _.

(** A [ResponseEmitter] interface value: the identity of the object behind
    it, [reflect.TypeOf(re).String()], whether it also implements
    [EncodingEmitter], and what its [Emit] answers after a given history. *)
Record ResponseEmitter := {
  re_id : nat;
  re_type : string;
  re_encoding : bool;
  re_Emit : list Event -> Value -> option error
}.

Definition Encoder : Type := ReqData -> EncoderInstance.

(** The fields of [cmds.Command] that [Execute] reads.  A hook is given the
    fields of the request as they are when it is called; what it may do to
    the request through the pointer it gets in the source is not part of
    this model. *)
Record Command := {
  Run : option (ReqData -> ResponseEmitter -> Env -> Effect unit);
  PreRun : option (ReqData -> Env -> Effect (option error));
  PostRun : option (gmap EncodingType
                      (ReqData -> ResponseEmitter -> Effect ResponseEmitter));
  Encoders : gmap EncodingType Encoder
}.

(** [cmds.Request]: its [Command] field and the rest.  The callbacks of a
    command receive the rest, which keeps [Command] a well-founded type. *)
Record Request := {
  req_Command : Command;
  req_data : ReqData
}.

(** *** Control flow of a Go function body

    A computation extends the event history and then either yields a value,
    leaves the function through [return], or panics. *)
Inductive Flow (A : Type) :=
  | Val (a : A)
  | Ret (err : option error)
  | Pan (v : panic_value).
Arguments Val {A} a.
Arguments Ret {A} err.
Arguments Pan {A} v.

Definition M (A : Type) : Type := list Event -> list Event * Flow A.

Definition pure {A} (a : A) : M A := fun t => (t, Val a).

Definition bind {A B} (m : M A) (f : A -> M B) : M B :=
  fun t =>
    match m t with
    | (t', Val a) => f a t'
    | (t', Ret err) => (t', Ret err)
    | (t', Pan v) => (t', Pan v)
    end.

Notation "'let!' x ':=' m 'in' k" := (bind m (fun x => k))
  (at level 10, x name, m at level 200, k at level 200).
Notation "'do!' m 'in' k" := (bind m (fun _ => k))
  (at level 10, m at level 200, k at level 200).

Definition ret {A} (err : option error) : M A := fun t => (t, Ret err).
Definition panic {A} (v : panic_value) : M A := fun t => (t, Pan v).
Definition call (c : Call) : M unit := fun t => (t ++ [(ByExecute, c)], Val tt).

(** Calling into user code: its calls enter the history under its name. *)
Definition invoke {A} (who : Actor) (e : Effect A) : M A :=
  fun t =>
    (t ++ map (pair who) (calls e),
     match result e with
     | Returned a => Val a
     | Panicked v => Pan v
     end).

(** The outcome of a whole function call. *)
Inductive Outcome :=
  | Return (err : option error)
  | Panic (v : panic_value).

Section Execute.

(** Package-level names that [executor.go] uses and other files of the
    package define. *)
Variable ErrNotCallable : error.
Variable CheckArguments : Command -> ReqData -> option error.
Variable GetEncoding : Request -> EncodingType.
Variable GlobalEncoders : gmap EncodingType Encoder.   (* var Encoders *)
Variables Text JSON : EncodingType.
Variable TimeoutOpt : string.
(** [time.ParseDuration] *)
Variable ParseDuration : string -> Duration + error.

(** Lines 41-57.  Calling the missing [Encoders[JSON]] entry is a call of a
    nil function value. *)
Definition selectEncoder (cmd : Command) (req : Request) (re : ResponseEmitter)
  : M unit :=
  if re_encoding re then
    let encType := GetEncoding req in
    let ok := match Encoders cmd !! encType with Some _ => true | None => false end in
    let encType := if String.eqb encType Text && negb ok then JSON else encType in
    match Encoders cmd !! encType with
    | Some enc => call (SetEncoder (re_id re) (enc (req_data req)))
    | None =>
      match GlobalEncoders !! encType with
      | Some enc => call (SetEncoder (re_id re) (enc (req_data req)))
      | None =>
        do! call (Errorf "unknown encoding %q, using json" [encType]) in
        match GlobalEncoders !! JSON with
        | Some enc => call (SetEncoder (re_id re) (enc (req_data req)))
        | None => panic (PanicError (runtimeError "invalid memory address or nil pointer dereference"))
        end
      end
    end
  else pure tt.

(** What the failed type assertion [timeoutStr.(string)] panics with. *)
Definition notAString : panic_value :=
  PanicError (runtimeError "interface conversion: interface {} is not string").

(** [context.WithTimeout] refuses a nil parent. *)
Definition WithTimeout (parent : context) (d : Duration) : M context :=
  match parent with
  | ctxNil => panic (PanicOther "cannot create context from nil parent")
  | _ => pure (ctxWithTimeout parent d)
  end.

(** Lines 59-65.  [timeoutStr.(string)] is the single-result form of the
    type assertion: it panics on any other dynamic type. *)
Definition applyTimeout (d : ReqData) : M ReqData :=
  match Options d !! TimeoutOpt with
  | Some timeoutStr =>
    match timeoutStr with
    | VString s =>
      match ParseDuration s with
      | inr err => ret (Some err)
      | inl timeout =>
        let! c := WithTimeout (Context d) timeout in
        pure (set_Context c d)
      end
    | _ => panic notAString
    end
  | None => pure d
  end.

(** Lines 67-72. *)
Definition preRun (cmd : Command) (d : ReqData) (env : Env) : M unit :=
  match PreRun cmd with
  | Some f =>
    let! err := invoke ByPreRun (f d env) in
    match err with
    | Some e => ret (Some e)
    | None => pure tt
    end
  | None => pure tt
  end.

(** Lines 75-78. *)
Definition postRunWrap (cmd : Command) (d : ReqData) (re : ResponseEmitter)
  : M ResponseEmitter :=
  let emitterType : EncodingType := re_type re in
  match PostRun cmd with
  | Some tbl =>
    match tbl !! emitterType with
    | Some f => invoke ByPostRun (f d re)
    | None => pure re
    end
  | None => pure re
  end.

(** Lines 80-101: [Run] under the two deferred functions.  The recovery
    guard runs first, then [re.Close()]; a panic raised by the guard does
    not stop the remaining deferred call. *)
Definition runGuarded
    (run : ReqData -> ResponseEmitter -> Env -> Effect unit)
    (d : ReqData) (re : ResponseEmitter) (env : Env)
    (t : list Event) : list Event * Outcome :=
  let e := run d re env in
  let t := t ++ map (pair ByRun) (calls e) in
  match result e with
  | Returned _ =>
    (t ++ [(ByExecute, Close (re_id re))], Return None)
  | Panicked v =>
    match as_error v with
    | Some e =>
      let v' := VError (Error e) ErrNormal in
      let err := re_Emit re t v' in
      let t := t ++ [(ByExecute, Emit (re_id re) v')] in
      let t := match err with
               | Some err' =>
                 t ++ [(ByExecute,
                        Errorf "recovered from command error %q but failed emitting it: %q"
                          [Error e; Error err'])]
               | None => t
               end in
      (t ++ [(ByExecute, Close (re_id re))], Return err)
    | None =>
      (t ++ [(ByExecute, Close (re_id re))], Panic v)
    end
  end.

(** Lines 39-78, up to the point where the deferred calls are registered. *)
Definition prepare (cmd : Command) (req : Request) (re : ResponseEmitter)
    (env : Env) : M (ReqData * ResponseEmitter) :=
  do! selectEncoder cmd req re in
  let! d := applyTimeout (req_data req) in
  do! preRun cmd d env in
  let! re' := postRunWrap cmd d re in
  pure (d, re').

Definition Execute (req : Request) (re : ResponseEmitter) (env : Env)
  : list Event * Outcome :=
  let cmd := req_Command req in
  match Run cmd with
  | None => ([], Return (Some ErrNotCallable))
  | Some run =>
    match CheckArguments cmd (req_data req) with
    | Some err => ([], Return (Some err))
    | None =>
      match prepare cmd req re env [] with
      | (t, Ret err) => (t, Return err)
      | (t, Pan v) => (t, Panic v)
      | (t, Val (d, re')) => runGuarded run d re' env t
      end
    end
  end.

(** *** Reading a history *)

(** A [Close] that [Execute] itself called, and on which emitter. *)
Definition closeOf (ev : Event) : option nat :=
  match ev with
  | (ByExecute, Close id) => Some id
  | _ => None
  end.

(** A [SetEncoder] that [Execute] itself called. *)
Definition setEncoderOf (ev : Event) : option (nat * EncoderInstance) :=
  match ev with
  | (ByExecute, SetEncoder id enc) => Some (id, enc)
  | _ => None
  end.

(** An [Emit] that [Execute] itself called. *)
Definition emitOf (ev : Event) : option (nat * Value) :=
  match ev with
  | (ByExecute, Emit id v) => Some (id, v)
  | _ => None
  end.

Definition closeCalls (t : list Event) : list nat := omap closeOf t.
Definition setEncoderCalls (t : list Event) : list (nat * EncoderInstance) :=
  omap setEncoderOf t.
Definition emitCalls (t : list Event) : list (nat * Value) := omap emitOf t.

(** The encoder the specification asks for: the tag after the Text-to-JSON
    upgrade, then command table, global table, global JSON entry. *)
Definition requestedTag (cmd : Command) (req : Request) : EncodingType :=
  let tag := GetEncoding req in
  if decide (tag = Text /\ Encoders cmd !! Text = None) then JSON else tag.

Definition chosenEncoder (cmd : Command) (req : Request) : option Encoder :=
  let tag := requestedTag cmd req in
  match Encoders cmd !! tag with
  | Some enc => Some enc
  | None =>
    match GlobalEncoders !! tag with
    | Some enc => Some enc
    | None => GlobalEncoders !! JSON
    end
  end.

End Execute.

(** The computation [m] adds nothing that [obs] sees. *)
Definition silent {X A} (obs : Event -> option X) (m : M A) : Prop :=
  forall t t' r, m t = (t', r) -> omap obs t' = omap obs t.

(** [obs] only sees calls made by [Execute] itself. *)
Definition own_calls_only {X} (obs : Event -> option X) : Prop :=
  forall who c, who <> ByExecute -> obs (who, c) = None.

End Executor.

(** ** The HTTP bridge ([http/handler.go]) *)

Module HTTP.

(** A package-level error variable: compared by identity with [==], so it
    carries its own name next to its message. *)
Inductive herror :=
  | errVar (name msg : string)
  | errNew (e : error).

Definition herror_eqb (a b : herror) : bool :=
  match a, b with
  | errVar n _, errVar n' _ => String.eqb n n'
  | _, _ => false
  end.

Definition herror_msg (e : herror) : string :=
  match e with
  | errVar _ msg => msg
  | errNew e => Error e
  end.

Definition ErrNotFound : herror := errVar "ErrNotFound" "404 page not found".

Definition StatusForbidden : nat := 403.
Definition StatusNotFound : nat := 404.
Definition StatusBadRequest : nat := 400.
Definition StatusInternalServerError : nat := 500.

(** Lines 84-95. *)
Definition skipAPIHeader (h : string) : bool :=
  if String.eqb h "Access-Control-Allow-Origin" then true
  else if String.eqb h "Access-Control-Allow-Methods" then true
  else if String.eqb h "Access-Control-Allow-Credentials" then true
  else false.

(** [ServerConfig]: the header map and the allowed origins of [corsOpts]. *)
Record ServerConfig := {
  Headers : gmap string (list string);
  AllowedOrigins : list string
}.

(** [http.Header.Get]: first value stored under the key, or the empty
    string. *)
Definition Header_Get (h : gmap string (list string)) (key : string) : string :=
  match h !! key with
  | Some (v :: _) => v
  | _ => ""
  end.

Record HttpRequest := {
  r_Method : string;
  r_URL : string;
  r_Header : gmap string (list string)
}.

(** [r.Referer()] *)
Definition Referer (r : HttpRequest) : string := Header_Get (r_Header r) "Referer".

(** The two fields of [url.URL] that the bridge reads. *)
Record URL := { Scheme : string; Host : string }.

(** [http.ResponseWriter]: header map, status line once written, body
    written so far, and whether the value also implements
    [http.CloseNotifier]. *)
Record ResponseWriter := {
  w_Header : gmap string (list string);
  w_status : option nat;
  w_body : list string;
  w_closeNotifier : bool
}.

Definition WriteHeader (code : nat) (w : ResponseWriter) : ResponseWriter :=
  {| w_Header := w_Header w;
     w_status := match w_status w with Some c => Some c | None => Some code end;
     w_body := w_body w;
     w_closeNotifier := w_closeNotifier w |}.

Definition Write (b : string) (w : ResponseWriter) : ResponseWriter :=
  {| w_Header := w_Header w;
     w_status := match w_status w with Some c => Some c | None => Some 200 end;
     w_body := w_body w ++ [b];
     w_closeNotifier := w_closeNotifier w |}.

Definition set_Header (h : gmap string (list string)) (w : ResponseWriter)
  : ResponseWriter :=
  {| w_Header := h;
     w_status := w_status w;
     w_body := w_body w;
     w_closeNotifier := w_closeNotifier w |}.

(** [http.Error(w, msg, code)]: two headers, the status line and the
    message on a line of its own. *)
Definition http_Error (msg : string) (code : nat) (w : ResponseWriter)
  : ResponseWriter :=
  let h := <["Content-Type" := ["text/plain; charset=utf-8"]]> (w_Header w) in
  let h := <["X-Content-Type-Options" := ["nosniff"]]> h in
  let w := set_Header h w in
  let w := WriteHeader code w in
  Write (msg +:+ String.String "010"%char EmptyString) w.

(** What [context.WithCancel] panics with on a nil parent. *)
Definition nilParent : panic_value :=
  PanicOther "cannot create context from nil parent".

(** [context.WithCancel(parent)]: the derived context, or the panic on a
    nil parent. *)
Definition WithCancel (parent : context) : context + panic_value :=
  match parent with
  | ctxNil => inr nilParent
  | _ => inl (ctxWithCancel parent)
  end.

(** The environment's [Context()], when it has one, is not nil. *)
Definition contextReady (e : Env) : Prop := env_Context e <> Some ctxNil.

(** What the handler does besides writing to [w]. *)
Inductive Action :=
  | LogDebug (msg : string)
  | DeriveContext (ctx : context)        (* context.WithCancel returned ctx *)
  | WatchClient (ctx : context)          (* the goroutine of lines 143-149 *)
  | Cancel (ctx : context)               (* deferred cancel() *)
  | Warningf (msg : string)
  | LogPanic (v : panic_value)
  | ParseRequest (ctx : context)
  | AddRequest (req : Executor.Request)
  | Done
  | NewResponseEmitter (header : gmap string (list string))
  | Call (req : Executor.Request)
  | HttpError (msg : string) (code : nat).

(** The actions that hand the request on to the command tree. *)
Definition dispatches (a : Action) : bool :=
  match a with
  | ParseRequest _ | AddRequest _ | NewResponseEmitter _ | Call _ => true
  | _ => false
  end.

(** Lines 60-64. *)
Definition ACAOrigin : string := "Access-Control-Allow-Origin".
Definition ACAMethods : string := "Access-Control-Allow-Methods".
Definition ACACredentials : string := "Access-Control-Allow-Credentials".

(** An origin counts as listed when the list holds it or the wildcard. *)
Definition listed (origins : list string) (origin : string) : Prop :=
  "*" ∈ origins \/ origin ∈ origins.

Record internalHandler := {
  root : Executor.Command;
  cfg : ServerConfig;
  env : Env
}.

(** The loop shared by [allowOrigin] (lines 262-272) and [allowReferer]
    (lines 303-314). *)
Fixpoint rangeOrigins (origins : list string) (origin : string) : bool :=
  match origins with
  | [] => false
  | o :: origins =>
    if String.eqb o "*" then true
    else if String.eqb o origin then true
    else rangeOrigins origins origin
  end.

(** Lines 252-273. *)
Definition allowOrigin (r : HttpRequest) (cfg : ServerConfig) : bool :=
  let origin := Header_Get (r_Header r) "Origin" in
  if String.eqb origin "" then true
  else rangeOrigins (AllowedOrigins cfg) origin.

Section Handler.

(** [url.Parse] of the standard library. *)
Variable url_Parse : string -> URL + error.
(** [parseRequest] of [http/parse.go]. *)
Variable parseRequest :
  context -> HttpRequest -> Executor.Command -> Executor.Request + herror.
(** [Command.Call] of package cmds, run against an emitter that writes to [w]: the
    writer it leaves behind and how it ended. *)
Variable rootCall :
  Executor.Command -> Executor.Request -> ResponseWriter -> Env ->
  ResponseWriter * Executor.Outcome.

(** Lines 280-315. *)
Definition allowReferer (r : HttpRequest) (cfg : ServerConfig) : bool :=
  let referer := Referer r in
  if String.eqb referer "" then true
  else
    match url_Parse referer with
    | inr _ => false
    | inl u =>
      let origin := Scheme u +:+ "://" +:+ Host u in
      rangeOrigins (AllowedOrigins cfg) origin
    end.

(** Lines 179-183.  The keys of a Go map are distinct, so the order in
    which [range] visits them does not show in the result. *)
Definition setUserHeaders (user : gmap string (list string))
    (header : gmap string (list string)) : gmap string (list string) :=
  map_fold (fun k v h => if skipAPIHeader k then h else <[k:=v]> h) header user.

Definition setRequestContext (ctx : context) (req : Executor.Request)
  : Executor.Request :=
  {| Executor.req_Command := Executor.req_Command req;
     Executor.req_data := set_Context ctx (Executor.req_data req) |}.

(** Lines 153-193: the handler from the origin checks on.  [ctx] is the
    variable declared on line 137, never assigned before these lines; [acts]
    is what has happened so far and [exit] the deferred calls pending, most
    recent first. *)
Definition checkAndDispatch (i : internalHandler) (w : ResponseWriter)
    (r : HttpRequest) (acts exit : list Action)
  : ResponseWriter * list Action :=
  let ctx := ctxNil in
  if negb (allowOrigin r (cfg i)) || negb (allowReferer r (cfg i)) then
    let w := WriteHeader StatusForbidden w in
    let w := Write "403 - Forbidden" w in
    (w, acts ++ [Warningf "API blocked request. (possible CSRF)"] ++ exit)
  else
    let acts := acts ++ [ParseRequest ctx] in
    match parseRequest ctx r (root i) with
    | inr err =>
      let w := if herror_eqb err ErrNotFound
               then WriteHeader StatusNotFound w
               else WriteHeader StatusBadRequest w in
      let w := Write (herror_msg err) w in
      (w, acts ++ exit)
    | inl req =>
      let '(acts, exit) :=
        if env_AddRequest (env i)
        then (acts ++ [AddRequest req], Done :: exit)
        else (acts, exit) in
      let req := setRequestContext ctx req in
      let w := set_Header (setUserHeaders (Headers (cfg i)) (w_Header w)) w in
      let acts := acts ++ [NewResponseEmitter (w_Header w); Call req] in
      match rootCall (root i) req w (env i) with
      | (w, Executor.Return None) => (w, acts ++ exit)
      | (w, Executor.Return (Some err)) =>
        (http_Error (Error err) StatusInternalServerError w,
         acts ++ [HttpError (Error err) StatusInternalServerError] ++ exit)
      | (w, Executor.Panic v) => (w, acts ++ exit ++ [LogPanic v])
      end
    end.

(** Lines 126-194 up to the origin checks.  The short variable declaration
    on line 139 introduces its own [ctx] and [cancel], whose scope ends with
    the [if] block on line 151; the [ctx] of line 137 stays nil.  When
    [context.WithCancel] panics there, nothing is deferred yet but the
    recovery of lines 129-135, which logs the panic and returns. *)
Definition ServeHTTP (i : internalHandler) (w : ResponseWriter) (r : HttpRequest)
  : ResponseWriter * list Action :=
  match env_Context (env i) with
  | Some parent =>
    match WithCancel parent with
    | inl ctx' =>
      checkAndDispatch i w r
        ([LogDebug "incoming API request"; DeriveContext ctx'] ++
         (if w_closeNotifier w then [WatchClient ctx'] else []))
        [Cancel ctx']
    | inr v => (w, [LogDebug "incoming API request"; LogPanic v])
    end
  | None => checkAndDispatch i w r [LogDebug "incoming API request"] []
  end.

(** What lines 138-151 leave behind when [context.WithCancel] returns: the
    actions so far and the deferred calls. *)
Definition deriveContext (e : Env) (w : ResponseWriter)
  : list Action * list Action :=
  match env_Context e with
  | Some parent =>
    ([LogDebug "incoming API request"; DeriveContext (ctxWithCancel parent)] ++
     (if w_closeNotifier w then [WatchClient (ctxWithCancel parent)] else []),
     [Cancel (ctxWithCancel parent)])
  | None => ([LogDebug "incoming API request"], [])
  end.

End Handler.

End HTTP.

(** ** Request construction ([NewRequest], exercised by [TestOptionValidation]) *)

Module Options.

(** [cmdkit] option kinds. *)
Inductive Kind := KBool | KInt | KString.

(** An option declaration: its names, primary first, and its kind. *)
Record OptionDef := {
  Names : list string;
  Type_ : Kind
}.

Definition IntOption (names : list string) : OptionDef :=
  {| Names := names; Type_ := KInt |}.
Definition StringOption (names : list string) : OptionDef :=
  {| Names := names; Type_ := KString |}.

Definition ErrIncorrectType : error := errorString "incorrect type".

Definition is_digit (c : ascii) : bool :=
  let n := nat_of_ascii c in (48 <=? n)%nat && (n <=? 57)%nat.

Definition digit_value (c : ascii) : Z := Z.of_nat (nat_of_ascii c) - 48.

(** Base-10 digits, most significant first, onto an accumulator. *)
Fixpoint parseDigits (s : string) (acc : Z) : option Z :=
  match s with
  | EmptyString => Some acc
  | String.String c s =>
    if is_digit c then parseDigits s (10 * acc + digit_value c) else None
  end.

(** Modelled from the spec: a base-10 numeric string, read as an optional
    sign followed by at least one decimal digit. *)
Definition parseInt (s : string) : option Z :=
  match s with
  | EmptyString => None
  | String.String c rest =>
    if Ascii.eqb c "-"%char then
      match rest with
      | EmptyString => None
      | _ => Z.opp <$> parseDigits rest 0
      end
    else if Ascii.eqb c "+"%char then
      match rest with
      | EmptyString => None
      | _ => parseDigits rest 0
      end
    else parseDigits s 0
  end.

Definition parseBool (s : string) : option bool :=
  if String.eqb s "true" then Some true
  else if String.eqb s "false" then Some false
  else None.

(** Modelled from the spec: the value check of section 4.2, which
    [NewRequest] (request.go, not among the embedded files) applies to each
    recognised option.  A value passes when it already has the declared type
    or is a string that parses as the declared type; anything else is an
    incorrect-type error. *)
Definition checkValue (k : Kind) (v : Value) : Value + error :=
  match k, v with
  | KInt, VInt i => inl (VInt i)
  | KInt, VString s =>
    match parseInt s with
    | Some i => inl (VInt i)
    | None => inr ErrIncorrectType
    end
  | KBool, VBool b => inl (VBool b)
  | KBool, VString s =>
    match parseBool s with
    | Some b => inl (VBool b)
    | None => inr ErrIncorrectType
    end
  | KString, VString s => inl (VString s)
  | _, _ => inr ErrIncorrectType
  end.

(** Modelled from the spec: a key is recognised when it is the primary name
    or an alias of a declared option. *)
Definition lookupOption (decls : list OptionDef) (key : string)
  : option OptionDef :=
  List.find (fun o => existsb (String.eqb key) (Names o)) decls.

Definition primary (o : OptionDef) : string :=
  match Names o with
  | name :: _ => name
  | [] => ""
  end.

(** Modelled from the spec: one entry of the options map.  Unrecognised keys
    (the reserved encoding key among them) are kept as they are; recognised
    ones are checked and filed under the primary name. *)
Definition convertEntry (decls : list OptionDef) (key : string) (v : Value)
  : (string * Value) + error :=
  match lookupOption decls key with
  | None => inl (key, v)
  | Some o =>
    match checkValue (Type_ o) v with
    | inl v' => inl (primary o, v')
    | inr err => inr err
    end
  end.

Fixpoint convertOptions (decls : list OptionDef) (entries : list (string * Value))
  : gmap string Value + error :=
  match entries with
  | [] => inl ∅
  | (key, v) :: entries =>
    match convertEntry decls key v with
    | inr err => inr err
    | inl (key', v') =>
      match convertOptions decls entries with
      | inr err => inr err
      | inl m => inl (<[key':=v']> m)
      end
    end
  end.

(** Modelled from the spec: [NewRequest(ctx, path, options, args, files,
    cmd)] of request.go, which is not among the embedded files.  The command
    is represented by its option declarations; path and files play no part
    in validation. *)
Definition NewRequest (ctx : context) (options : gmap string Value)
    (args : list string) (decls : list OptionDef) : ReqData + error :=
  match convertOptions decls (map_to_list options) with
  | inr err => inr err
  | inl m => inl {| Context := ctx; Options := m; Arguments := args |}
  end.

(** The command of [TestOptionValidation], lines 40-46. *)
Definition testOptions : list OptionDef :=
  [IntOption ["b"; "beep"]; StringOption ["B"; "boop"]].

End Options.

(** ** Concrete inputs used by the examples below *)

Module Examples.
Import Executor.

Definition ErrNotCallable : error :=
  errorString "not callable".

Definition CheckArguments (cmd : Command) (d : ReqData) : option error := None.

Definition Text : EncodingType := "text".
Definition JSON : EncodingType := "json".
Definition XML : EncodingType := "xml".
Definition EncShort : string := "enc".
Definition TimeoutOpt : string := "timeout".

(** The requested encoding: [req.Options[EncShort]], [Text] by default. *)
Definition GetEncoding (req : Request) : EncodingType :=
  match Options (req_data req) !! EncShort with
  | Some (VString tag) => tag
  | _ => Text
  end.

Definition encoder (label : string) : Encoder := fun _ => {| enc_label := label |}.

Definition GlobalEncoders : gmap EncodingType Encoder :=
  {[ JSON := encoder "global json"; XML := encoder "global xml";
     Text := encoder "global text" ]}.

(** [time.ParseDuration] on the strings the examples use. *)
Definition ParseDuration (s : string) : Duration + error :=
  if String.eqb s "30s" then inl 30000000000%Z
  else inr (errorString "time: invalid duration").

Definition data (opts : gmap string Value) : ReqData :=
  {| Context := ctxBackground; Options := opts; Arguments := [] |}.

(** A writer-style emitter: it can swap encoders and its [Emit] succeeds. *)
Definition writer : ResponseEmitter :=
  {| re_id := 0; re_type := "*cmds.WriterResponseEmitter";
     re_encoding := true; re_Emit := fun _ _ => None |}.

(** A channel-style emitter without the encoder capability. *)
Definition chanEmitter : ResponseEmitter :=
  {| re_id := 1; re_type := "*cmds.chanResponseEmitter";
     re_encoding := false; re_Emit := fun _ _ => None |}.

Definition noEnv : Env := {| env_Context := None; env_AddRequest := false |}.

(** [noop] of the tests (lines 27-29). *)
Definition noop (d : ReqData) (re : ResponseEmitter) (env : Env) : Effect unit :=
  {| calls := []; result := Returned tt |}.

Definition noopCmd : Command :=
  {| Run := Some noop; PreRun := None; PostRun := None; Encoders := ∅ |}.

(** A command whose [PreRun] refuses. *)
Definition refusingCmd : Command :=
  {| Run := Some noop;
     PreRun := Some (fun _ _ =>
       {| calls := []; result := Returned (Some (errorString "not now")) |});
     PostRun := None; Encoders := ∅ |}.

(** A command whose [Run] panics with an error value. *)
Definition panickingCmd : Command :=
  {| Run := Some (fun _ _ _ =>
       {| calls := []; result := Panicked (PanicError (errorString "boom")) |});
     PreRun := None; PostRun := None; Encoders := ∅ |}.

(** A command with an XML encoder of its own. *)
Definition xmlCmd : Command :=
  {| Run := Some noop; PreRun := None; PostRun := None;
     Encoders := {[ XML := encoder "command xml" ]} |}.

Definition request (cmd : Command) (opts : gmap string Value) : Request :=
  {| req_Command := cmd; req_data := data opts |}.

Definition Execute : Request -> ResponseEmitter -> Env -> list Event * Outcome :=
  Executor.Execute ErrNotCallable CheckArguments GetEncoding GlobalEncoders
    Text JSON TimeoutOpt ParseDuration.

(** [url.Parse] on the referers the examples use. *)
Definition url_Parse (s : string) : HTTP.URL + error :=
  if String.eqb s "https://evil.example/page"
  then inl {| HTTP.Scheme := "https"; HTTP.Host := "evil.example" |}
  else inr (errorString "parse: invalid URI").

(** A parser that resolves every path to the root command and takes its
    context from the caller. *)
Definition parseRequest (ctx : context) (r : HTTP.HttpRequest) (root : Command)
  : Request + HTTP.herror :=
  inl {| req_Command := root;
         req_data := {| Context := ctx; Options := ∅; Arguments := [] |} |}.

(** A call that leaves the writer alone and succeeds. *)
Definition rootCall (root : Command) (req : Request) (w : HTTP.ResponseWriter)
    (env : Env) : HTTP.ResponseWriter * Outcome :=
  (w, Return None).

Definition ServeHTTP :
    HTTP.internalHandler -> HTTP.ResponseWriter -> HTTP.HttpRequest ->
    HTTP.ResponseWriter * list HTTP.Action :=
  HTTP.ServeHTTP url_Parse parseRequest rootCall.

(** An environment that implements [Context()]. *)
Definition nodeEnv : Env :=
  {| env_Context := Some ctxBackground; env_AddRequest := false |}.

Definition handler (env : Env) (headers : gmap string (list string))
    (origins : list string) : HTTP.internalHandler :=
  {| HTTP.root := noopCmd;
     HTTP.cfg := {| HTTP.Headers := headers; HTTP.AllowedOrigins := origins |};
     HTTP.env := env |}.

Definition freshWriter : HTTP.ResponseWriter :=
  {| HTTP.w_Header := ∅; HTTP.w_status := None; HTTP.w_body := [];
     HTTP.w_closeNotifier := true |}.

Definition get (url : string) (header : gmap string (list string))
  : HTTP.HttpRequest :=
  {| HTTP.r_Method := "GET"; HTTP.r_URL := url; HTTP.r_Header := header |}.

End Examples.

(** ** The rest of [http/handler.go] *)

Module Handler.
Import HTTP.

Definition LF : ascii := "010"%char.
Definition CR : ascii := "013"%char.

(** [strings.Split(s, sep)] for a separator of one byte: the pieces of [s]
    between occurrences of [sep], never an empty list. *)
Fixpoint Split (s : string) (sep : ascii) : list string :=
  match s with
  | EmptyString => [EmptyString]
  | String.String c rest =>
    if Ascii.eqb c sep then EmptyString :: Split rest sep
    else
      match Split rest sep with
      | piece :: pieces => String.String c piece :: pieces
      | [] => [String.String c EmptyString]
      end
  end.

(** Indexing a slice at 0; out of range panics, which the caller below
    never meets because [Split] returns at least one piece. *)
Definition first (pieces : list string) : string :=
  match pieces with
  | piece :: _ => piece
  | [] => EmptyString
  end.

(** Lines 196-201. *)
Definition sanitizedErrStr (err : error) : string :=
  let s := Error err in
  let s := first (Split s LF) in
  let s := first (Split s CR) in
  s.

(** [strings.Contains(s, substr)] *)
Fixpoint Contains (s substr : string) : bool :=
  String.prefix substr s ||
  match s with
  | EmptyString => false
  | String.String _ rest => Contains rest substr
  end.

(** Line 39. *)
Definition errApiVersionMismatch : error := errorString "api version mismatch".

(** [r.UserAgent()] *)
Definition UserAgent (r : HttpRequest) : string :=
  Header_Get (r_Header r) "User-Agent".

(** Lines 321-333.  [ApiVersion] is [config.ApiVersion] of go-ipfs; the
    error is the one [fmt.Errorf("%s (%s != %s)", ...)] builds. *)
Definition apiVersionMatches (ApiVersion : string) (r : HttpRequest)
  : option error :=
  let clientVersion := UserAgent r in
  if String.eqb clientVersion "" || negb (Contains clientVersion "/go-ipfs/")
  then None
  else
    let daemonVersion := ApiVersion in
    if negb (String.eqb daemonVersion clientVersion)
    then Some (errorString (Error errApiVersionMismatch +:+ " (" +:+
                            daemonVersion +:+ " != " +:+ clientVersion +:+ ")"))
    else None.

(** [cors.Options], the three fields the package sets. *)
Record corsOptions := {
  cors_AllowedOrigins : list string;
  cors_AllowedMethods : list string;
  cors_AllowCredentials : bool
}.

(** [ServerConfig] (lines 73-82) with its [corsOpts] pointer, which is nil
    in a zero value.  The mutex plays no part in a sequential run. *)
Record Config := {
  cfg_Headers : gmap string (list string);
  corsOpts : option corsOptions
}.

(** What dereferencing a nil [corsOpts] panics with. *)
Definition nilDereference : panic_value :=
  PanicError (runtimeError "invalid memory address or nil pointer dereference").

(** Lines 203-207: [new(cors.Options)] is the zero value. *)
Definition NewServerConfig : Config :=
  {| cfg_Headers := ∅;
     corsOpts := Some {| cors_AllowedOrigins := [];
                         cors_AllowedMethods := [];
                         cors_AllowCredentials := false |} |}.

(** Lines 209-213. *)
Definition AllowedOrigins (c : Config) : Executor.Result (list string) :=
  match corsOpts c with
  | Some o => Executor.Returned (cors_AllowedOrigins o)
  | None => Executor.Panicked nilDereference
  end.

(** Lines 215-221: the origins are copied into a slice of their own. *)
Definition SetAllowedOrigins (origins : list string) (c : Config)
  : Executor.Result Config :=
  match corsOpts c with
  | Some o =>
    Executor.Returned
      {| cfg_Headers := cfg_Headers c;
         corsOpts := Some {| cors_AllowedOrigins := origins;
                             cors_AllowedMethods := cors_AllowedMethods o;
                             cors_AllowCredentials := cors_AllowCredentials o |} |}
  | None => Executor.Panicked nilDereference
  end.

(** Lines 223-227. *)
Definition AppendAllowedOrigins (origins : list string) (c : Config)
  : Executor.Result Config :=
  match corsOpts c with
  | Some o =>
    Executor.Returned
      {| cfg_Headers := cfg_Headers c;
         corsOpts := Some {| cors_AllowedOrigins := cors_AllowedOrigins o ++ origins;
                             cors_AllowedMethods := cors_AllowedMethods o;
                             cors_AllowCredentials := cors_AllowCredentials o |} |}
  | None => Executor.Panicked nilDereference
  end.

(** Lines 229-233. *)
Definition AllowedMethods (c : Config) : Executor.Result (list string) :=
  match corsOpts c with
  | Some o => Executor.Returned (cors_AllowedMethods o)
  | None => Executor.Panicked nilDereference
  end.

(** Lines 235-242: the one setter that allocates a missing [corsOpts]. *)
Definition SetAllowedMethods (methods : list string) (c : Config)
  : Executor.Result Config :=
  let o := match corsOpts c with
           | Some o => o
           | None => {| cors_AllowedOrigins := [];
                        cors_AllowedMethods := [];
                        cors_AllowCredentials := false |}
           end in
  Executor.Returned
    {| cfg_Headers := cfg_Headers c;
       corsOpts := Some {| cors_AllowedOrigins := cors_AllowedOrigins o;
                           cors_AllowedMethods := methods;
                           cors_AllowCredentials := cors_AllowCredentials o |} |}.

(** Lines 244-248. *)
Definition SetAllowCredentials (flag : bool) (c : Config)
  : Executor.Result Config :=
  match corsOpts c with
  | Some o =>
    Executor.Returned
      {| cfg_Headers := cfg_Headers c;
         corsOpts := Some {| cors_AllowedOrigins := cors_AllowedOrigins o;
                             cors_AllowedMethods := cors_AllowedMethods o;
                             cors_AllowCredentials := flag |} |}
  | None => Executor.Panicked nilDereference
  end.

(** What the request handler reads of a configuration whose [corsOpts] is
    set: the header map and the result of [cfg.AllowedOrigins()]. *)
Definition served (c : Config) : option ServerConfig :=
  match corsOpts c with
  | Some o => Some {| Headers := cfg_Headers c;
                      HTTP.AllowedOrigins := cors_AllowedOrigins o |}
  | None => None
  end.

(** Two configuration steps in a row; a panic ends the sequence. *)
Definition andThen (r : Executor.Result Config)
    (f : Config -> Executor.Result Config) : Executor.Result Config :=
  match r with
  | Executor.Returned c => f c
  | Executor.Panicked v => Executor.Panicked v
  end.

(** *** Reading the handler's actions *)

(** The contexts derived with [context.WithCancel], in order. *)
Definition derivedContexts (acts : list Action) : list context :=
  omap (fun a => match a with DeriveContext c => Some c | _ => None end) acts.

(** The contexts cancelled by a deferred [cancel()], in order. *)
Definition cancelledContexts (acts : list Action) : list context :=
  omap (fun a => match a with Cancel c => Some c | _ => None end) acts.

Definition isAddRequest (a : Action) : bool :=
  match a with AddRequest _ => true | _ => false end.

Definition isDone (a : Action) : bool :=
  match a with Done => true | _ => false end.

(** The requests handed to [Call], in order. *)
Definition calledRequests (acts : list Action) : list Executor.Request :=
  omap (fun a => match a with Call req => Some req | _ => None end) acts.

(** The error responses written with [http.Error], in order. *)
Definition httpErrors (acts : list Action) : list (string * nat) :=
  omap (fun a => match a with HttpError msg code => Some (msg, code) | _ => None end)
       acts.

End Handler.

(** ** Reading the executor's history by phase *)

Module Phases.
Import Executor.

(** A call [Execute] makes while it selects the encoder. *)
Definition isEncoderStep (ev : Event) : bool :=
  match ev with
  | (ByExecute, SetEncoder _ _) => true
  | (ByExecute, Errorf _ _) => true
  | _ => false
  end.

(** A call [Execute] makes from its deferred functions. *)
Definition isWindDown (ev : Event) : bool :=
  match ev with
  | (ByExecute, Emit _ _) => true
  | (ByExecute, Errorf _ _) => true
  | (ByExecute, Close _) => true
  | _ => false
  end.

(** The context [Execute] hands on, given the request's own: lines 59-65
    when they do not leave the function. *)
Definition contextForRun (TimeoutOpt : string)
    (ParseDuration : string -> Duration + error) (d : ReqData) : context :=
  match Options d !! TimeoutOpt with
  | Some (VString s) =>
    match ParseDuration s with
    | inl timeout => ctxWithTimeout (Context d) timeout
    | inr _ => Context d
    end
  | _ => Context d
  end.

End Phases.

(** ** More concrete inputs *)

Module MoreExamples.
Import Executor Examples.

(** A request whose context was never set. *)
Definition nilContextRequest (cmd : Command) (opts : gmap string Value) : Request :=
  {| req_Command := cmd;
     req_data := {| Context := ctxNil; Options := opts; Arguments := [] |} |}.

(** A parser that knows no command. *)
Definition parseNotFound (ctx : context) (r : HTTP.HttpRequest) (root : Command)
  : Request + HTTP.herror := inr HTTP.ErrNotFound.

(** A call that writes a body and then fails. *)
Definition failingCall (root : Command) (req : Request) (w : HTTP.ResponseWriter)
    (env : Env) : HTTP.ResponseWriter * Outcome :=
  (HTTP.Write "partial" w, Return (Some (errorString "disk full"))).

(** A zero-value [ServerConfig]: no CORS options allocated. *)
Definition zeroConfig : Handler.Config :=
  {| Handler.cfg_Headers := ∅; Handler.corsOpts := None |}.

(** An environment whose [Context()] returns nil. *)
Definition nilEnv : Env :=
  {| env_Context := Some ctxNil; env_AddRequest := false |}.

(** An environment with both capabilities. *)
Definition fullEnv : Env :=
  {| env_Context := Some ctxBackground; env_AddRequest := true |}.

End MoreExamples.

(** * Properties of the executor *)

Section ExecuteFacts.
Import Executor.

Variable ErrNotCallable : error.
Variable CheckArguments : Command -> ReqData -> option error.
Variable GetEncoding : Request -> EncodingType.
Variable GlobalEncoders : gmap EncodingType Encoder.
Variables Text JSON : EncodingType.
Variable TimeoutOpt : string.
Variable ParseDuration : string -> Duration + error.

Local Abbreviation selectEncoder :=
  (Executor.selectEncoder GetEncoding GlobalEncoders Text JSON).
Local Abbreviation applyTimeout := (Executor.applyTimeout TimeoutOpt ParseDuration).
Local Abbreviation prepare :=
  (Executor.prepare GetEncoding GlobalEncoders Text JSON TimeoutOpt ParseDuration).
Local Abbreviation Execute :=
  (Executor.Execute ErrNotCallable CheckArguments GetEncoding GlobalEncoders
     Text JSON TimeoutOpt ParseDuration).
Local Abbreviation chosenEncoder :=
  (Executor.chosenEncoder GetEncoding GlobalEncoders Text JSON).

(** ** Observations that a computation leaves alone *)

Section Silent.
Context {X : Type} (obs : Event -> option X).

Local Abbreviation silent := (Executor.silent obs).
Local Abbreviation own_calls_only := (Executor.own_calls_only obs).

Lemma silent_pure {A} (a : A) : silent (pure a).
Proof. intros t t' r [= <- _]. reflexivity. Qed.

Lemma silent_ret {A} err : silent (@ret A err).
Proof. intros t t' r [= <- _]. reflexivity. Qed.

Lemma silent_panic {A} v : silent (@panic A v).
Proof. intros t t' r [= <- _]. reflexivity. Qed.

Lemma silent_call c : obs (ByExecute, c) = None -> silent (call c).
Proof.
  intros Hc t t' r [= <- _]. rewrite omap_app. simpl. rewrite Hc.
  apply app_nil_r.
Qed.

Lemma omap_user_calls who cs :
  own_calls_only -> who <> ByExecute -> omap obs (map (pair who) cs) = [].
Proof.
  intros Hown Hwho. induction cs as [|c cs IH]; simpl; [reflexivity|].
  rewrite (Hown who c Hwho). exact IH.
Qed.

Lemma silent_invoke {A} who (e : Effect A) :
  own_calls_only -> who <> ByExecute -> silent (invoke who e).
Proof.
  intros Hown Hwho t t' r [= <- _]. rewrite omap_app.
  rewrite omap_user_calls by assumption. apply app_nil_r.
Qed.

Lemma silent_bind {A B} (m : M A) (f : A -> M B) :
  silent m -> (forall a, silent (f a)) -> silent (bind m f).
Proof.
  intros Hm Hf t t' r. unfold bind. destruct (m t) as [t1 [a|err|v]] eqn:Em.
  - intros Hfa. rewrite (Hf a t1 t' r Hfa). exact (Hm _ _ _ Em).
  - intros [= <- _]. exact (Hm _ _ _ Em).
  - intros [= <- _]. exact (Hm _ _ _ Em).
Qed.

Lemma silent_WithTimeout parent d : silent (WithTimeout parent d).
Proof. destruct parent; first [apply silent_panic | apply silent_pure]. Qed.

Lemma silent_applyTimeout d : silent (applyTimeout d).
Proof.
  unfold Executor.applyTimeout.
  destruct (Options d !! TimeoutOpt) as [[| | |s|]|];
    try apply silent_panic; try apply silent_pure.
  destruct (ParseDuration s); [|apply silent_ret].
  apply silent_bind; [apply silent_WithTimeout|intros; apply silent_pure].
Qed.

Lemma silent_preRun cmd d env : own_calls_only -> silent (preRun cmd d env).
Proof.
  intros Hown. unfold preRun. destruct (PreRun cmd); [|apply silent_pure].
  apply silent_bind; [apply silent_invoke; [assumption|discriminate]|].
  intros [err|]; [apply silent_ret|apply silent_pure].
Qed.

Lemma silent_postRunWrap cmd d re :
  own_calls_only -> silent (postRunWrap cmd d re).
Proof.
  intros Hown. unfold postRunWrap. destruct (PostRun cmd) as [tbl|];
    [|apply silent_pure].
  destruct (tbl !! re_type re); [|apply silent_pure].
  apply silent_invoke; [assumption|discriminate].
Qed.

End Silent.

Lemma closeOf_own : own_calls_only closeOf.
Proof. intros [] c Hw; try reflexivity. contradiction. Qed.

Lemma setEncoderOf_own : own_calls_only setEncoderOf.
Proof. intros [] c Hw; try reflexivity. contradiction. Qed.

Lemma emitOf_own : own_calls_only emitOf.
Proof. intros [] c Hw; try reflexivity. contradiction. Qed.

Lemma silent_selectEncoder_close cmd req re :
  silent closeOf (selectEncoder cmd req re).
Proof.
  unfold Executor.selectEncoder. destruct (re_encoding re); [|apply silent_pure].
  cbv zeta.
  repeat match goal with
  | |- silent _ (match ?x with _ => _ end) => destruct x
  | |- silent _ (bind _ _) => apply silent_bind; [|intros]
  | |- silent _ (call _) => apply silent_call; reflexivity
  | |- silent _ (panic _) => apply silent_panic
  end.
Qed.

(** Steps 3-6 never call [Close]. *)
Lemma silent_prepare_close cmd req re env :
  silent closeOf (prepare cmd req re env).
Proof.
  unfold Executor.prepare.
  apply silent_bind; [apply silent_selectEncoder_close|intros _].
  apply silent_bind; [apply silent_applyTimeout|intros d].
  apply silent_bind; [apply silent_preRun, closeOf_own|intros _].
  apply silent_bind; [apply silent_postRunWrap, closeOf_own|intros re'].
  apply silent_pure.
Qed.

(** Once the encoder is chosen, steps 4-6 install no other. *)
Lemma silent_after_selectEncoder cmd req re env :
  silent setEncoderOf
    (let! d := applyTimeout (req_data req) in
     do! preRun cmd d env in
     let! re' := postRunWrap cmd d re in
     pure (d, re')).
Proof.
  apply silent_bind; [apply silent_applyTimeout|intros d].
  apply silent_bind; [apply silent_preRun, setEncoderOf_own|intros _].
  apply silent_bind; [apply silent_postRunWrap, setEncoderOf_own|intros re'].
  apply silent_pure.
Qed.

(** The guarded [Run] ends with [Close] on the emitter it was given, and
    that is its only [Close]. *)
Lemma runGuarded_close run d re env t :
  closeCalls (runGuarded run d re env t).1 = closeCalls t ++ [re_id re] /\
  last (runGuarded run d re env t).1 = Some (ByExecute, Close (re_id re)).
Proof.
  unfold runGuarded, closeCalls.
  destruct (result (run d re env)) as [[]|v]; simpl.
  - rewrite last_snoc, !omap_app, (omap_user_calls _ ByRun) by
      (exact closeOf_own || discriminate).
    rewrite app_nil_r. done.
  - destruct (as_error v) as [e|]; simpl.
    + destruct (re_Emit re _ _); simpl;
        rewrite last_snoc, !omap_app, (omap_user_calls _ ByRun) by
          (exact closeOf_own || discriminate);
        simpl; rewrite !app_nil_r; done.
    + rewrite last_snoc, !omap_app, (omap_user_calls _ ByRun) by
        (exact closeOf_own || discriminate).
      rewrite app_nil_r. done.
Qed.

Lemma runGuarded_setEncoder run d re env t :
  setEncoderCalls (runGuarded run d re env t).1 = setEncoderCalls t.
Proof.
  unfold runGuarded, setEncoderCalls.
  destruct (result (run d re env)) as [[]|v]; simpl.
  - rewrite !omap_app, (omap_user_calls _ ByRun) by
      (exact setEncoderOf_own || discriminate).
    simpl. by rewrite !app_nil_r.
  - destruct (as_error v) as [e|]; simpl.
    + destruct (re_Emit re _ _); simpl;
        rewrite !omap_app, (omap_user_calls _ ByRun) by
          (exact setEncoderOf_own || discriminate);
        simpl; by rewrite !app_nil_r.
    + rewrite !omap_app, (omap_user_calls _ ByRun) by
        (exact setEncoderOf_own || discriminate).
      simpl. by rewrite !app_nil_r.
Qed.

(** What the recovery guard does with a panic of [Run]: an error value is
    emitted as a [cmdkit.Error] with code [ErrNormal], and [Execute] returns
    what that [Emit] returned; any other value keeps panicking. *)
Lemma runGuarded_panic run d re env t v :
  result (run d re env) = Panicked v ->
  let t1 := t ++ map (pair ByRun) (calls (run d re env)) in
  match as_error v with
  | Some e =>
    (runGuarded run d re env t).2 =
      Return (re_Emit re t1 (VError (Error e) ErrNormal)) /\
    emitCalls (runGuarded run d re env t).1 =
      emitCalls t ++ [(re_id re, VError (Error e) ErrNormal)]
  | None => (runGuarded run d re env t).2 = Panic v
  end.
Proof.
  intros Hv. unfold runGuarded. rewrite Hv. destruct (as_error v) as [e|]; simpl.
  - split; [reflexivity|]. unfold emitCalls.
    destruct (re_Emit re _ _); simpl;
      rewrite !omap_app, (omap_user_calls _ ByRun) by
        (exact emitOf_own || discriminate);
      simpl; by rewrite !app_nil_r.
  - reflexivity.
Qed.

(** The source's test [encType == Text && !ok] picks the tag the
    specification describes. *)
Lemma selectEncoder_installs cmd req re enc t :
  re_encoding re = true ->
  chosenEncoder cmd req = Some enc ->
  exists t',
    selectEncoder cmd req re t = (t', Val tt) /\
    setEncoderCalls t' = setEncoderCalls t ++ [(re_id re, enc (req_data req))].
Proof.
  intros Hre. unfold Executor.chosenEncoder, Executor.requestedTag,
    Executor.selectEncoder. rewrite Hre. cbv zeta.
  set (tag := GetEncoding req).
  assert ((if String.eqb tag Text &&
              negb match Encoders cmd !! tag with Some _ => true | None => false end
           then JSON else tag)
          = (if decide (tag = Text /\ Encoders cmd !! Text = None)
             then JSON else tag)) as ->.
  { destruct (String.eqb_spec tag Text) as [->|Hne]; simpl.
    - destruct (Encoders cmd !! Text) eqn:E; simpl.
      + rewrite decide_False; [done|]. intros [_ ?]; congruence.
      + by rewrite decide_True.
    - rewrite decide_False; [done|]. intros [? _]; contradiction. }
  set (tag' := if decide _ then JSON else tag).
  unfold setEncoderCalls, call, bind.
  destruct (Encoders cmd !! tag') as [e1|].
  { intros [= ->]. eexists; split; [reflexivity|]. by rewrite omap_app. }
  destruct (GlobalEncoders !! tag') as [e2|].
  { intros [= ->]. eexists; split; [reflexivity|]. by rewrite omap_app. }
  destruct (GlobalEncoders !! JSON) as [e3|]; [|discriminate].
  intros [= ->]. eexists; split; [reflexivity|].
  rewrite !omap_app. simpl. by rewrite app_nil_r.
Qed.

(** C1 (as amended): for every call of [Execute] that passes the callable
    check and the argument check, if steps 3-6 run to completion then
    [Execute] calls [Close] exactly once, as its last call and on the
    emitter handed to [Run] (the PostRun replacement when there is one),
    whether [Run] returns or panics; if [Execute] leaves during steps 3-6,
    by an error return or a panic, it calls [Close] on nothing. *)
Theorem Execute_closes_once_after_preparation req re env run :
  Run (req_Command req) = Some run ->
  CheckArguments (req_Command req) (req_data req) = None ->
  match prepare (req_Command req) req re env [] with
  | (_, Val (_, re')) =>
    closeCalls (Execute req re env).1 = [re_id re'] /\
    last (Execute req re env).1 = Some (ByExecute, Close (re_id re'))
  | (t0, Ret err) =>
    Execute req re env = (t0, Return err) /\ closeCalls t0 = []
  | (t0, Pan v) =>
    Execute req re env = (t0, Panic v) /\ closeCalls t0 = []
  end.
Proof.
  intros Hrun Hargs. unfold Executor.Execute. rewrite Hrun, Hargs.
  destruct (prepare _ req re env []) as [t0 [[d re']|err|v]] eqn:Hprep;
    pose proof (silent_prepare_close _ _ _ _ _ _ _ Hprep) as Hquiet;
    simpl in Hquiet.
  - destruct (runGuarded_close run d re' env t0) as [Hc Hl].
    unfold closeCalls in Hc. rewrite Hquiet in Hc. split; assumption.
  - split; [reflexivity|assumption].
  - split; [reflexivity|assumption].
Qed.

(** C4: for every call of [Execute] on an emitter with the encoder-swap
    capability that passes the callable and argument checks, the one encoder
    [Execute] installs is the command's own for the tag (Text becoming JSON
    when the command has no Text encoder), else the global one for the tag,
    else the global JSON encoder. *)
Theorem Execute_installs_chosen_encoder req re env run enc :
  Run (req_Command req) = Some run ->
  CheckArguments (req_Command req) (req_data req) = None ->
  re_encoding re = true ->
  chosenEncoder (req_Command req) req = Some enc ->
  setEncoderCalls (Execute req re env).1 = [(re_id re, enc (req_data req))].
Proof.
  intros Hrun Hargs Hre Hchosen. unfold Executor.Execute. rewrite Hrun, Hargs.
  destruct (selectEncoder_installs _ req re enc [] Hre Hchosen)
    as (t1 & Hsel & Hcalls).
  unfold Executor.prepare. unfold bind at 1. rewrite Hsel.
  match goal with |- context [bind ?m ?f t1] =>
    pose proof (silent_after_selectEncoder (req_Command req) req re env t1) as Hq;
    destruct (bind m f t1) as [t2 [[d re']|err|v]] eqn:Hrest
  end; specialize (Hq _ _ eq_refl); simpl.
  - rewrite runGuarded_setEncoder. unfold setEncoderCalls in *.
    by rewrite Hq, Hcalls.
  - unfold setEncoderCalls in *. by rewrite Hq, Hcalls.
  - unfold setEncoderCalls in *. by rewrite Hq, Hcalls.
Qed.

(** C10: once the callable check, the argument check and encoder selection
    are behind it, [Execute] on a request whose timeout option is not a
    string panics with the failed type assertion instead of returning an
    error; only for a string does it parse the value and return the parse
    error. *)
Theorem Execute_timeout_must_be_string req re env run t0 v :
  Run (req_Command req) = Some run ->
  CheckArguments (req_Command req) (req_data req) = None ->
  selectEncoder (req_Command req) req re [] = (t0, Val tt) ->
  Options (req_data req) !! TimeoutOpt = Some v ->
  match v with
  | VString s =>
    forall err, ParseDuration s = inr err ->
      Execute req re env = (t0, Return (Some err))
  | _ => Execute req re env = (t0, Panic notAString)
  end.
Proof.
  intros Hrun Hargs Hsel Hopt.
  assert (forall r,
    applyTimeout (req_data req) t0 = (t0, r) ->
    (forall d, r <> Val d) ->
    Execute req re env =
      (t0, match r with Ret err => Return err | Pan p => Panic p
                      | Val _ => Return None end)) as Hleave.
  { intros r Hr Hnv. unfold Executor.Execute. rewrite Hrun, Hargs.
    unfold Executor.prepare. unfold bind at 1. rewrite Hsel.
    unfold bind at 1. rewrite Hr. destruct r as [d| |]; [|done..].
    by destruct (Hnv d). }
  unfold Executor.applyTimeout in Hleave. rewrite Hopt in Hleave.
  destruct v; try (apply (Hleave (Pan notAString)); done).
  intros err Herr. rewrite Herr in Hleave.
  apply (Hleave (Ret (Some err))); done.
Qed.

End ExecuteFacts.

(** ** The executor on concrete requests *)

Section ExecuteExamples.
Import Executor Examples.

Lemma Execute_closes_once_after_preparation_witness :
  Run panickingCmd = Some (fun _ _ _ =>
    {| calls := []; result := Panicked (PanicError (errorString "boom")) |}) /\
  CheckArguments panickingCmd (data ∅) = None /\
  closeCalls (Examples.Execute (request panickingCmd ∅) chanEmitter noEnv).1
    = [1%nat] /\
  last (Examples.Execute (request panickingCmd ∅) chanEmitter noEnv).1
    = Some (ByExecute, Close 1).
Proof.
  split; [reflexivity|]. split; [reflexivity|].
  exact (Execute_closes_once_after_preparation
           ErrNotCallable CheckArguments GetEncoding GlobalEncoders
           Text JSON TimeoutOpt ParseDuration
           (request panickingCmd ∅) chanEmitter noEnv _ eq_refl eq_refl).
Defined.

(** C1 (as stated) fails: a refusing [PreRun] and an unparsable timeout both
    pass the callable and argument checks, and [Execute] returns the error
    without a single [Close]. *)
Lemma Execute_early_return_never_closes :
  (is_Some (Run refusingCmd) /\
   CheckArguments refusingCmd (data ∅) = None /\
   Examples.Execute (request refusingCmd ∅) chanEmitter noEnv
     = ([], Return (Some (errorString "not now"))) /\
   List.length
     (closeCalls (Examples.Execute (request refusingCmd ∅) chanEmitter noEnv).1)
     <> 1%nat) /\
  (is_Some (Run noopCmd) /\
   CheckArguments noopCmd (data {[ TimeoutOpt := VString "abc" ]}) = None /\
   Examples.Execute (request noopCmd {[ TimeoutOpt := VString "abc" ]})
       chanEmitter noEnv
     = ([], Return (Some (errorString "time: invalid duration"))) /\
   List.length
     (closeCalls (Examples.Execute
        (request noopCmd {[ TimeoutOpt := VString "abc" ]}) chanEmitter noEnv).1)
     <> 1%nat).
Proof.
  split; (split; [eexists; reflexivity|]); (split; [reflexivity|]);
    (split; [vm_compute; reflexivity|vm_compute; discriminate]).
Qed.

(** C3 at a failing input: [Run] panics with the error "boom" and the
    emitter accepts the emitted [cmdkit.Error]; [Execute] returns nil, the
    result of [Emit], where the claim has it return the recovered error. *)
Lemma Execute_error_panic_returns_Emit_result :
  Examples.Execute (request panickingCmd ∅) chanEmitter noEnv
  = ([(ByExecute, Emit 1 (VError "boom" ErrNormal)); (ByExecute, Close 1)],
     Return None).
Proof. vm_compute. reflexivity. Qed.

Lemma Execute_installs_chosen_encoder_witness :
  Run noopCmd = Some noop /\
  CheckArguments noopCmd (data ∅) = None /\
  re_encoding writer = true /\
  Executor.chosenEncoder GetEncoding GlobalEncoders Text JSON
    noopCmd (request noopCmd ∅) = Some (encoder "global json") /\
  setEncoderCalls (Examples.Execute (request noopCmd ∅) writer noEnv).1
    = [(0%nat, {| enc_label := "global json" |})].
Proof.
  split; [reflexivity|]. split; [reflexivity|]. split; [reflexivity|].
  split; [vm_compute; reflexivity|].
  apply (Execute_installs_chosen_encoder
           ErrNotCallable CheckArguments GetEncoding GlobalEncoders
           Text JSON TimeoutOpt ParseDuration
           (request noopCmd ∅) writer noEnv noop (encoder "global json"));
    vm_compute; reflexivity.
Defined.

Lemma Execute_timeout_must_be_string_witness :
  Run noopCmd = Some noop /\
  CheckArguments noopCmd (data {[ TimeoutOpt := VInt 5 ]}) = None /\
  Executor.selectEncoder GetEncoding GlobalEncoders Text JSON noopCmd
    (request noopCmd {[ TimeoutOpt := VInt 5 ]}) chanEmitter [] = ([], Val tt) /\
  Options (data {[ TimeoutOpt := VInt 5 ]}) !! TimeoutOpt = Some (VInt 5) /\
  Examples.Execute (request noopCmd {[ TimeoutOpt := VInt 5 ]}) chanEmitter noEnv
    = ([], Panic notAString).
Proof.
  split; [reflexivity|]. split; [reflexivity|]. split; [reflexivity|].
  split; [vm_compute; reflexivity|].
  apply (Execute_timeout_must_be_string
           ErrNotCallable CheckArguments GetEncoding GlobalEncoders
           Text JSON TimeoutOpt ParseDuration
           (request noopCmd {[ TimeoutOpt := VInt 5 ]}) chanEmitter noEnv noop
           [] (VInt 5)); vm_compute; reflexivity.
Defined.

End ExecuteExamples.

(** * Properties of the HTTP bridge *)

Section HandlerFacts.
Import HTTP.

Variable url_Parse : string -> URL + error.
Variable parseRequest :
  context -> HttpRequest -> Executor.Command -> Executor.Request + herror.
Variable rootCall :
  Executor.Command -> Executor.Request -> ResponseWriter -> Env ->
  ResponseWriter * Executor.Outcome.

Local Abbreviation allowReferer := (HTTP.allowReferer url_Parse).
Local Abbreviation ServeHTTP := (HTTP.ServeHTTP url_Parse parseRequest rootCall).

Lemma rangeOrigins_listed origins origin :
  rangeOrigins origins origin = true <-> listed origins origin.
Proof.
  unfold listed. induction origins as [|o origins IH]; simpl.
  - split; [discriminate|]. intros [H|H]; inversion H.
  - rewrite !elem_of_cons.
    destruct (String.eqb_spec o "*") as [->|Hstar]; [tauto|].
    destruct (String.eqb_spec o origin) as [->|Hne]; [tauto|].
    rewrite IH. split; [tauto|]. intros [[?|?]|[?|?]]; subst; tauto.
Qed.



(** With a context at hand, the handler goes on to the origin checks. *)
Lemma ServeHTTP_ready i w r :
  contextReady (env i) ->
  ServeHTTP i w r =
    checkAndDispatch url_Parse parseRequest rootCall i w r
      (deriveContext (env i) w).1 (deriveContext (env i) w).2.
Proof.
  unfold contextReady, HTTP.ServeHTTP, deriveContext.
  destruct (env_Context (env i)) as [[]|]; try reflexivity. by intros [].
Qed.

(** Without one, it panics before them and writes nothing. *)
Lemma ServeHTTP_nil_context i w r :
  env_Context (env i) = Some ctxNil ->
  ServeHTTP i w r = (w, [LogDebug "incoming API request"; LogPanic nilParent]).
Proof. unfold HTTP.ServeHTTP. by intros ->. Qed.

(** Whatever the environment, a request that fails one of the two checks
    is neither parsed nor handed on. *)
Lemma ServeHTTP_blocked_never_dispatches i w r :
  allowOrigin r (cfg i) = false \/ allowReferer r (cfg i) = false ->
  Forall (fun a => dispatches a = false) (ServeHTTP i w r).2.
Proof.
  intros Hblock.
  assert (negb (allowOrigin r (cfg i)) || negb (allowReferer r (cfg i)) = true)
    as Hneg.
  { destruct Hblock as [-> | ->]; [done|]. by rewrite orb_true_r. }
  unfold HTTP.ServeHTTP, HTTP.checkAndDispatch. rewrite Hneg.
  destruct (env_Context (env i)) as [[]|]; simpl;
    try destruct (w_closeNotifier w); simpl; repeat constructor.
Qed.

(** What [ServeHTTP] does once one of the two checks fails. *)
Lemma ServeHTTP_blocked i w r :
  contextReady (env i) ->
  allowOrigin r (cfg i) = false \/ allowReferer r (cfg i) = false ->
  (ServeHTTP i w r).1 = Write "403 - Forbidden" (WriteHeader StatusForbidden w) /\
  Forall (fun a => dispatches a = false) (ServeHTTP i w r).2.
Proof.
  intros Hready Hblock.
  split; [|by apply ServeHTTP_blocked_never_dispatches].
  rewrite (ServeHTTP_ready i w r Hready). unfold HTTP.checkAndDispatch.
  assert (negb (allowOrigin r (cfg i)) || negb (allowReferer r (cfg i)) = true)
    as ->; [|reflexivity].
  destruct Hblock as [-> | ->]; [done|]. by rewrite orb_true_r.
Qed.


(** Whatever the environment offers, the context that reaches the parser
    and the context installed on the request before the call are both the
    nil context of line 137; the context derived on line 139 lives in a
    variable of its own and is only ever cancelled. *)
Theorem ServeHTTP_installs_nil_context i w r :
  Forall (fun a =>
            match a with
            | ParseRequest ctx => ctx = ctxNil
            | Call req => Context (Executor.req_data req) = ctxNil
            | _ => True
            end) (ServeHTTP i w r).2.
Proof.
  unfold HTTP.ServeHTTP, HTTP.checkAndDispatch.
  destruct (env_Context (env i)) as [[]|]; simpl;
    destruct (negb (allowOrigin r (cfg i)) || negb (allowReferer r (cfg i)));
    simpl;
    try destruct (w_closeNotifier w); simpl;
    try destruct (parseRequest ctxNil r (root i)); simpl;
    try destruct (env_AddRequest (env i)); simpl;
    try destruct (rootCall _ _ _ _) as [w' [[err|]|v]]; simpl;
    repeat (apply Forall_cons; split; [done|]); try apply Forall_nil;
    rewrite ?Forall_app, ?Forall_cons; repeat split; done.
Qed.

Lemma skipAPIHeader_spec k :
  skipAPIHeader k = true <-> k ∈ [ACAOrigin; ACAMethods; ACACredentials].
Proof.
  unfold skipAPIHeader, ACAOrigin, ACAMethods, ACACredentials.
  rewrite !elem_of_cons, elem_of_nil.
  destruct (String.eqb_spec k "Access-Control-Allow-Origin"); [tauto|].
  destruct (String.eqb_spec k "Access-Control-Allow-Methods"); [tauto|].
  destruct (String.eqb_spec k "Access-Control-Allow-Credentials"); [tauto|].
  split; [discriminate|tauto].
Qed.

(** The header loop, key by key. *)
Lemma setUserHeaders_lookup user header k :
  setUserHeaders user header !! k =
    if skipAPIHeader k then header !! k
    else match user !! k with
         | Some v => Some v
         | None => header !! k
         end.
Proof.
  unfold setUserHeaders. revert k.
  apply (map_fold_weak_ind
    (fun (h : gmap string (list string)) (m : gmap string (list string)) =>
       forall k, h !! k = if skipAPIHeader k then header !! k
                          else match m !! k with
                               | Some v => Some v
                               | None => header !! k
                               end)).
  - intros k. rewrite lookup_empty. by destruct (skipAPIHeader k).
  - intros j x m h Hfresh IH k.
    destruct (decide (j = k)) as [->|Hne].
    + destruct (skipAPIHeader k) eqn:Hskip.
      * rewrite IH. by rewrite Hskip.
      * by rewrite !lookup_insert_eq.
    + destruct (skipAPIHeader j).
      * rewrite IH. by rewrite lookup_insert_ne.
      * rewrite !lookup_insert_ne by done. apply IH.
Qed.

(** C9: the header map the bridge builds from the configured one holds
    every configured entry except those under the three CORS keys, which
    keep whatever the writer had for them; and when a request gets as far as
    dispatch (the environment's context, if any, is not nil, both origin
    checks pass and the parser succeeds), that map is the one the response
    emitter is built on. *)
Theorem ServeHTTP_user_headers i w r req :
  allowOrigin r (cfg i) = true ->
  allowReferer r (cfg i) = true ->
  parseRequest ctxNil r (root i) = inl req ->
  let h := setUserHeaders (Headers (cfg i)) (w_Header w) in
  (contextReady (env i) -> NewResponseEmitter h ∈ (ServeHTTP i w r).2) /\
  (forall k v, Headers (cfg i) !! k = Some v ->
     k ∉ [ACAOrigin; ACAMethods; ACACredentials] -> h !! k = Some v) /\
  (forall k, k ∈ [ACAOrigin; ACAMethods; ACACredentials] ->
     h !! k = w_Header w !! k).
Proof.
  intros Hao Har Hparse h. split; [|split].
  - intros Hready. rewrite (ServeHTTP_ready i w r Hready).
    unfold HTTP.checkAndDispatch, deriveContext. rewrite Hao, Har, Hparse. simpl.
    destruct (env_Context (env i)); simpl;
      destruct (env_AddRequest (env i)); simpl;
      destruct (rootCall _ _ _ _) as [w' [[err|]|v]]; simpl;
      set_solver.
  - intros k v Hk Hnot. unfold h. rewrite setUserHeaders_lookup, Hk.
    destruct (skipAPIHeader k) eqn:Hskip; [|reflexivity].
    apply skipAPIHeader_spec in Hskip. contradiction.
  - intros k Hk. unfold h. rewrite setUserHeaders_lookup.
    apply skipAPIHeader_spec in Hk. by rewrite Hk.
Qed.

End HandlerFacts.

(** ** The bridge on concrete requests *)

Section HandlerExamples.
Import HTTP Examples.


(** The scenario of section 8 of the specification, evaluated. *)
Example ServeHTTP_evil_origin :
  Examples.ServeHTTP (handler nodeEnv ∅ ["https://good.example"]) freshWriter
    (get "/api/v0/id" {[ "Origin" := ["https://evil.example"] ]})
  = ({| w_Header := ∅; w_status := Some 403%nat; w_body := ["403 - Forbidden"];
        w_closeNotifier := true |},
     [LogDebug "incoming API request";
      DeriveContext (ctxWithCancel ctxBackground);
      WatchClient (ctxWithCancel ctxBackground);
      Warningf "API blocked request. (possible CSRF)";
      Cancel (ctxWithCancel ctxBackground)]).
Proof. vm_compute. reflexivity. Qed.

(** C2 at two failing inputs.  With an environment that offers
    [context.Background()], a request that passes the origin checks and
    parses: the derived context is created, watched and cancelled, but the
    request is parsed and called with the nil context.  With an environment
    that has no [Context()], no context is created at all and the request is
    again called with the nil context. *)
Example ServeHTTP_drops_derived_context :
  (Examples.ServeHTTP (handler nodeEnv ∅ []) freshWriter (get "/api/v0/id" ∅)).2
  = [LogDebug "incoming API request";
     DeriveContext (ctxWithCancel ctxBackground);
     WatchClient (ctxWithCancel ctxBackground);
     ParseRequest ctxNil;
     NewResponseEmitter ∅;
     Call {| Executor.req_Command := noopCmd;
             Executor.req_data :=
               {| Context := ctxNil; Options := ∅; Arguments := [] |} |};
     Cancel (ctxWithCancel ctxBackground)] /\
  (Examples.ServeHTTP (handler noEnv ∅ []) freshWriter (get "/api/v0/id" ∅)).2
  = [LogDebug "incoming API request";
     ParseRequest ctxNil;
     NewResponseEmitter ∅;
     Call {| Executor.req_Command := noopCmd;
             Executor.req_data :=
               {| Context := ctxNil; Options := ∅; Arguments := [] |} |}].
Proof. split; vm_compute; reflexivity. Qed.

Lemma ServeHTTP_user_headers_witness :
  let user : gmap string (list string) :=
    {[ "Server" := ["go-ipfs"]; ACAOrigin := ["*"] ]} in
  let i := handler noEnv user [] in
  let r := get "/api/v0/id" ∅ in
  let h := setUserHeaders user ∅ in
  (allowOrigin r (cfg i) = true /\
   HTTP.allowReferer url_Parse r (cfg i) = true /\
   parseRequest ctxNil r (root i) =
     inl {| Executor.req_Command := noopCmd;
            Executor.req_data :=
              {| Context := ctxNil; Options := ∅; Arguments := [] |} |}) /\
  contextReady (env i) /\
  NewResponseEmitter h ∈ (Examples.ServeHTTP i freshWriter r).2 /\
  h !! "Server" = Some ["go-ipfs"] /\
  h !! ACAOrigin = None.
Proof.
  cbv zeta.
  assert (allowOrigin (get "/api/v0/id" ∅)
            (cfg (handler noEnv
                    {[ "Server" := ["go-ipfs"]; ACAOrigin := ["*"] ]} []))
          = true) as Hao by (vm_compute; reflexivity).
  assert (HTTP.allowReferer url_Parse (get "/api/v0/id" ∅)
            (cfg (handler noEnv
                    {[ "Server" := ["go-ipfs"]; ACAOrigin := ["*"] ]} []))
          = true) as Har by (vm_compute; reflexivity).
  split; [repeat split; assumption|].
  destruct (ServeHTTP_user_headers url_Parse parseRequest rootCall
              (handler noEnv {[ "Server" := ["go-ipfs"]; ACAOrigin := ["*"] ]} [])
              freshWriter (get "/api/v0/id" ∅) _ Hao Har eq_refl)
    as (Hin & Hkeep & Hskip).
  split; [discriminate|]. split; [apply Hin; discriminate|]. split.
  - apply Hkeep; [vm_compute; reflexivity|].
    rewrite !elem_of_cons, elem_of_nil.
    intros [?|[?|[?|[]]]]; discriminate.
  - rewrite Hskip; [reflexivity|]. rewrite elem_of_cons. by left.
Defined.

End HandlerExamples.

(** * Properties of request construction *)

Section OptionFacts.
Import Options.

Variable decls : list OptionDef.

Lemma checkValue_error k v err :
  checkValue k v = inr err -> err = ErrIncorrectType.
Proof.
  destruct k, v; simpl; try congruence.
  - destruct (parseBool s); congruence.
  - destruct (parseInt s); congruence.
Qed.

(** A conversion error always comes from a recognised key. *)
Lemma convertEntry_error key v err :
  convertEntry decls key v = inr err ->
  err = ErrIncorrectType /\
  exists o, lookupOption decls key = Some o /\
            checkValue (Type_ o) v = inr ErrIncorrectType.
Proof.
  unfold convertEntry. destruct (lookupOption decls key) as [o|]; [|discriminate].
  destruct (checkValue (Type_ o) v) as [v'|e] eqn:Hcheck; [discriminate|].
  intros [= <-]. pose proof (checkValue_error _ _ _ Hcheck) as ->. eauto.
Qed.

Lemma convertEntry_unrecognised key v :
  lookupOption decls key = None -> convertEntry decls key v = inl (key, v).
Proof. unfold convertEntry. by intros ->. Qed.

(** The primary name of a declaration that some key reaches is itself a
    recognised key. *)
Lemma lookupOption_primary key o :
  lookupOption decls key = Some o -> lookupOption decls (primary o) <> None.
Proof.
  unfold lookupOption. intros Hfind Hnone.
  apply find_some in Hfind as [Hin Hex].
  pose proof (find_none _ _ Hnone o Hin) as Hprim. simpl in Hprim.
  unfold primary in Hprim. destruct (Names o) as [|name names]; [discriminate|].
  simpl in Hprim. by rewrite String.eqb_refl in Hprim.
Qed.

Lemma convertEntry_key key v key' v' :
  convertEntry decls key v = inl (key', v') ->
  (lookupOption decls key = None /\ key' = key /\ v' = v) \/
  lookupOption decls key' <> None.
Proof.
  unfold convertEntry. destruct (lookupOption decls key) as [o|] eqn:Hlook.
  - destruct (checkValue (Type_ o) v); [|discriminate].
    intros [= <- <-]. right. by eapply lookupOption_primary.
  - intros [= <- <-]. by left.
Qed.

Lemma convertOptions_fails entries key v err :
  (key, v) ∈ entries ->
  convertEntry decls key v = inr err ->
  convertOptions decls entries = inr ErrIncorrectType.
Proof.
  intros Hin Herr. induction entries as [|[k0 v0] entries IH];
    [by apply elem_of_nil in Hin|].
  simpl. destruct (convertEntry decls k0 v0) as [[k0' v0']|e0] eqn:H0.
  - apply elem_of_cons in Hin as [[= <- <-]|Hin]; [congruence|].
    by rewrite (IH Hin).
  - by apply convertEntry_error in H0 as [-> _].
Qed.

Lemma convertOptions_error entries err :
  convertOptions decls entries = inr err ->
  err = ErrIncorrectType /\
  exists key v o, (key, v) ∈ entries /\ lookupOption decls key = Some o /\
                  checkValue (Type_ o) v = inr ErrIncorrectType.
Proof.
  induction entries as [|[k0 v0] entries IH]; simpl; [discriminate|].
  destruct (convertEntry decls k0 v0) as [[k0' v0']|e0] eqn:H0.
  - destruct (convertOptions decls entries) as [m|e]; [discriminate|].
    intros [= <-]. destruct (IH eq_refl) as (-> & key & v & o & Hin & Ho & Hv).
    split; [reflexivity|]. exists key, v, o. split; [|done].
    apply elem_of_cons. by right.
  - intros [= <-]. apply convertEntry_error in H0 as (-> & o & Ho & Hv).
    split; [reflexivity|]. exists k0, v0, o. split; [|done].
    apply elem_of_cons. by left.
Qed.

Lemma convertOptions_keeps_unrecognised entries m key v :
  NoDup entries.*1 ->
  convertOptions decls entries = inl m ->
  (key, v) ∈ entries ->
  lookupOption decls key = None ->
  m !! key = Some v.
Proof.
  revert m. induction entries as [|[k0 v0] entries IH]; intros m Hnd Hconv Hin Hun;
    [by apply elem_of_nil in Hin|].
  simpl in Hconv, Hnd. apply NoDup_cons in Hnd as [Hfresh Hnd].
  destruct (convertEntry decls k0 v0) as [[k0' v0']|e0] eqn:H0; [|discriminate].
  destruct (convertOptions decls entries) as [m'|e]; [|discriminate].
  injection Hconv as <-.
  apply elem_of_cons in Hin as [[= <- <-]|Hin].
  - rewrite convertEntry_unrecognised in H0 by done.
    injection H0 as <- <-. apply lookup_insert_eq.
  - rewrite lookup_insert_ne; [by apply IH|].
    intros Heq. subst k0'.
    apply convertEntry_key in H0 as [(_ & Heq & _)|Hrec]; [subst k0|done].
    apply Hfresh. apply list_elem_of_fmap. by exists (key, v).
Qed.

(** One recognised entry on its own. *)
Lemma NewRequest_singleton ctx args key v o v' :
  lookupOption decls key = Some o ->
  checkValue (Type_ o) v = inl v' ->
  NewRequest ctx {[ key := v ]} args decls =
    inl {| Context := ctx; Options := {[ primary o := v' ]}; Arguments := args |}.
Proof.
  intros Ho Hv. unfold NewRequest. rewrite map_to_list_singleton. simpl.
  unfold convertEntry. rewrite Ho, Hv. by rewrite insert_empty.
Qed.

(** C5: against a command that declares an integer option, an options map
    holding just an integer or a base-10 numeric string for it constructs;
    a boolean or a non-numeric string for it, in any options map, fails with
    the incorrect-type error; construction only ever fails because of the
    value of a recognised key, and every unrecognised key is still in the
    options of the request that comes out. *)
Theorem NewRequest_option_validation ctx args key o :
  lookupOption decls key = Some o ->
  Type_ o = KInt ->
  (forall i,
     NewRequest ctx {[ key := VInt i ]} args decls =
       inl {| Context := ctx; Options := {[ primary o := VInt i ]};
              Arguments := args |}) /\
  (forall s i, parseInt s = Some i ->
     NewRequest ctx {[ key := VString s ]} args decls =
       inl {| Context := ctx; Options := {[ primary o := VInt i ]};
              Arguments := args |}) /\
  (forall options b, options !! key = Some (VBool b) ->
     NewRequest ctx options args decls = inr ErrIncorrectType) /\
  (forall options s, options !! key = Some (VString s) -> parseInt s = None ->
     NewRequest ctx options args decls = inr ErrIncorrectType) /\
  (forall options err, NewRequest ctx options args decls = inr err ->
     exists k v o', options !! k = Some v /\ lookupOption decls k = Some o' /\
                   checkValue (Type_ o') v = inr err) /\
  (forall options req k v,
     NewRequest ctx options args decls = inl req ->
     options !! k = Some v -> lookupOption decls k = None ->
     Options req !! k = Some v).
Proof.
  intros Ho Hint. repeat split.
  - intros i. apply NewRequest_singleton; [done|]. by rewrite Hint.
  - intros s i Hs. apply NewRequest_singleton; [done|].
    rewrite Hint. simpl. by rewrite Hs.
  - intros options b Hb. unfold NewRequest.
    rewrite (convertOptions_fails _ key (VBool b) ErrIncorrectType); [done| |].
    + by apply elem_of_map_to_list.
    + unfold convertEntry. by rewrite Ho, Hint.
  - intros options s Hs Hparse. unfold NewRequest.
    rewrite (convertOptions_fails _ key (VString s) ErrIncorrectType); [done| |].
    + by apply elem_of_map_to_list.
    + unfold convertEntry. rewrite Ho, Hint. simpl. by rewrite Hparse.
  - intros options err. unfold NewRequest.
    destruct (convertOptions decls (map_to_list options)) as [m|e] eqn:Hconv;
      [discriminate|].
    intros [= <-].
    apply convertOptions_error in Hconv as (-> & k & v & o' & Hin & Ho' & Hv).
    exists k, v, o'. by rewrite <- elem_of_map_to_list.
  - intros options req k v. unfold NewRequest.
    destruct (convertOptions decls (map_to_list options)) as [m|e] eqn:Hconv;
      [|discriminate].
    intros [= <-] Hk Hun. simpl.
    eapply convertOptions_keeps_unrecognised; [|exact Hconv| |exact Hun].
    + apply NoDup_fst_map_to_list.
    + by apply elem_of_map_to_list.
Qed.

End OptionFacts.

(** ** [TestOptionValidation], call by call *)

Section OptionExamples.
Import Options.

Lemma NewRequest_option_validation_witness :
  lookupOption testOptions "b" = Some (IntOption ["b"; "beep"]) /\
  Type_ (IntOption ["b"; "beep"]) = KInt /\
  NewRequest ctxTODO {[ "b" := VString "100" ]} [] testOptions =
    inl {| Context := ctxTODO; Options := {[ "b" := VInt 100 ]};
           Arguments := [] |} /\
  NewRequest ctxTODO {[ "b" := VString ":)" ]} [] testOptions =
    inr ErrIncorrectType.
Proof.
  split; [reflexivity|]. split; [reflexivity|].
  destruct (NewRequest_option_validation testOptions ctxTODO [] "b"
              (IntOption ["b"; "beep"]) eq_refl eq_refl)
    as (_ & Hnumeric & _ & Hbad & _).
  split.
  - exact (Hnumeric "100" 100%Z eq_refl).
  - apply (Hbad _ ":)"); [apply lookup_singleton_eq|reflexivity].
Defined.

Example NewRequest_beep_true :
  NewRequest ctxTODO {[ "beep" := VBool true ]} [] testOptions
  = inr ErrIncorrectType.
Proof. vm_compute. reflexivity. Qed.

Example NewRequest_beep_5 :
  NewRequest ctxTODO {[ "beep" := VInt 5 ]} [] testOptions
  = inl {| Context := ctxTODO; Options := {[ "b" := VInt 5 ]};
           Arguments := [] |}.
Proof. vm_compute. reflexivity. Qed.

Example NewRequest_foo_5 :
  NewRequest ctxTODO {[ "foo" := VInt 5 ]} [] testOptions
  = inl {| Context := ctxTODO; Options := {[ "foo" := VInt 5 ]};
           Arguments := [] |}.
Proof. vm_compute. reflexivity. Qed.

End OptionExamples.

(** * Further properties of the executor *)

Section ExecutePhases.
Import Executor Phases.

Variable ErrNotCallable : error.
Variable CheckArguments : Command -> ReqData -> option error.
Variable GetEncoding : Request -> EncodingType.
Variable GlobalEncoders : gmap EncodingType Encoder.
Variables Text JSON : EncodingType.
Variable TimeoutOpt : string.
Variable ParseDuration : string -> Duration + error.

Local Abbreviation selectEncoder :=
  (Executor.selectEncoder GetEncoding GlobalEncoders Text JSON).
Local Abbreviation applyTimeout := (Executor.applyTimeout TimeoutOpt ParseDuration).
Local Abbreviation prepare :=
  (Executor.prepare GetEncoding GlobalEncoders Text JSON TimeoutOpt ParseDuration).
Local Abbreviation Execute :=
  (Executor.Execute ErrNotCallable CheckArguments GetEncoding GlobalEncoders
     Text JSON TimeoutOpt ParseDuration).
Local Abbreviation contextForRun := (Phases.contextForRun TimeoutOpt ParseDuration).

(** ** What each step adds to the history *)

Lemma selectEncoder_extends cmd req re t :
  exists enc r,
    selectEncoder cmd req re t = (t ++ enc, r) /\
    forallb isEncoderStep enc = true /\
    (re_encoding re = false -> enc = [] /\ r = Val tt).
Proof.
  unfold Executor.selectEncoder. destruct (re_encoding re).
  - cbv zeta. unfold bind, call, panic.
    repeat match goal with
    | |- context [match ?x with _ => _ end] =>
      match type of x with
      | option _ => destruct x
      end
    end;
    eexists _, _; (split; [rewrite <- ?app_assoc; reflexivity|]);
    (split; [reflexivity|discriminate]).
  - exists [], (Val tt). unfold pure. rewrite app_nil_r. done.
Qed.

Lemma applyTimeout_keeps_history d t :
  exists r,
    applyTimeout d t = (t, r) /\
    forall d', r = Val d' ->
      Options d' = Options d /\ Arguments d' = Arguments d /\
      Context d' = contextForRun d.
Proof.
  unfold Executor.applyTimeout, Phases.contextForRun.
  destruct (Options d !! TimeoutOpt) as [[| | |s|]|];
    try (eexists; split; [reflexivity|]; intros d'; discriminate).
  - destruct (ParseDuration s) as [timeout|err].
    + unfold bind, WithTimeout.
      destruct (Context d) eqn:Hctx;
        (eexists; split; [reflexivity|]); intros d'; try discriminate;
        intros [= <-]; simpl; by rewrite ?Hctx.
    + eexists; split; [reflexivity|]. intros d'; discriminate.
  - eexists; split; [reflexivity|]. by intros d' [= <-].
Qed.

Lemma preRun_extends cmd d env t :
  exists pre r,
    preRun cmd d env t = (t ++ map (pair ByPreRun) pre, r) /\
    (PreRun cmd = None -> pre = [] /\ r = Val tt) /\
    (forall f, PreRun cmd = Some f ->
       pre = calls (f d env) /\
       r = match result (f d env) with
           | Returned (Some err) => Ret (Some err)
           | Returned None => Val tt
           | Panicked v => Pan v
           end).
Proof.
  unfold preRun. destruct (PreRun cmd) as [f|].
  - exists (calls (f d env)). unfold bind, invoke.
    destruct (result (f d env)) as [[err|]|v] eqn:Hres; eexists;
      (split; [reflexivity|]); (split; [discriminate|]);
      intros f' [= <-]; by rewrite Hres.
  - exists [], (Val tt). unfold pure. simpl. rewrite app_nil_r.
    split; [done|]. split; [done|discriminate].
Qed.

(** The PostRun registered for the emitter's type name, if any. *)
Lemma postRunWrap_extends cmd d re t :
  exists post r,
    postRunWrap cmd d re t = (t ++ map (pair ByPostRun) post, r) /\
    match PostRun cmd ≫= (.!! re_type re) with
    | Some f =>
      post = calls (f d re) /\
      r = match result (f d re) with
          | Returned re' => Val re'
          | Panicked v => Pan v
          end
    | None => post = [] /\ r = Val re
    end.
Proof.
  unfold postRunWrap. cbv zeta. destruct (PostRun cmd) as [tbl|]; simpl.
  - destruct (tbl !! re_type re) as [f|]; simpl.
    + exists (calls (f d re)). eexists. split; [reflexivity|]. done.
    + exists [], (Val re). unfold pure. simpl. by rewrite app_nil_r.
  - exists [], (Val re). unfold pure. simpl. by rewrite app_nil_r.
Qed.

Lemma runGuarded_extends run d re env t :
  exists tail,
    (runGuarded run d re env t).1 =
      t ++ map (pair ByRun) (calls (run d re env)) ++ tail /\
    forallb isWindDown tail = true.
Proof.
  unfold runGuarded. destruct (result (run d re env)) as [[]|v]; simpl.
  - eexists. rewrite <- app_assoc. split; [reflexivity|reflexivity].
  - destruct (as_error v) as [e|]; simpl.
    + destruct (re_Emit re _ _); simpl; eexists;
        rewrite <- ?app_assoc; (split; [reflexivity|reflexivity]).
    + eexists. rewrite <- app_assoc. split; [reflexivity|reflexivity].
Qed.

(** Steps 3-6, step by step. *)
Lemma prepare_steps cmd req re env :
  exists enc r1 r2 pre r3 post r4,
    selectEncoder cmd req re [] = (enc, r1) /\
    forallb isEncoderStep enc = true /\
    (re_encoding re = false -> enc = []) /\
    (forall d, r2 = Val d ->
       Options d = Options (req_data req) /\
       Arguments d = Arguments (req_data req) /\
       Context d = contextForRun (req_data req)) /\
    prepare cmd req re env [] =
      match r1 with
      | Val _ =>
        match r2 with
        | Val d =>
          match r3 d with
          | Val _ =>
            (enc ++ map (pair ByPreRun) (pre d) ++ map (pair ByPostRun) (post d),
             match r4 d with
             | Val re' => Val (d, re')
             | Ret err => Ret err
             | Pan v => Pan v
             end)
          | Ret err => (enc ++ map (pair ByPreRun) (pre d), Ret err)
          | Pan v => (enc ++ map (pair ByPreRun) (pre d), Pan v)
          end
        | Ret err => (enc, Ret err)
        | Pan v => (enc, Pan v)
        end
      | Ret err => (enc, Ret err)
      | Pan v => (enc, Pan v)
      end /\
    applyTimeout (req_data req) enc = (enc, r2) /\
    (forall d, preRun cmd d env enc = (enc ++ map (pair ByPreRun) (pre d), r3 d)) /\
    (forall d, postRunWrap cmd d re (enc ++ map (pair ByPreRun) (pre d)) =
       ((enc ++ map (pair ByPreRun) (pre d)) ++ map (pair ByPostRun) (post d),
        r4 d)).
Proof.
  destruct (selectEncoder_extends cmd req re []) as (enc & r1 & Hsel & Henc & Hno).
  simpl in Hsel.
  destruct (applyTimeout_keeps_history (req_data req) enc) as (r2 & Htime & Hdata).
  exists enc, r1, r2,
    (fun d => match PreRun cmd with Some f => calls (f d env) | None => [] end),
    (fun d => match PreRun cmd with
              | Some f => match result (f d env) with
                          | Returned (Some err) => Ret (Some err)
                          | Returned None => Val tt
                          | Panicked v => Pan v
                          end
              | None => Val tt
              end),
    (fun d => match PostRun cmd ≫= (.!! re_type re) with
              | Some f => calls (f d re)
              | None => []
              end),
    (fun d => match PostRun cmd ≫= (.!! re_type re) with
              | Some f => match result (f d re) with
                          | Returned re' => Val re'
                          | Panicked v => Pan v
                          end
              | None => Val re
              end).
  assert (forall d t, preRun cmd d env t =
            (t ++ map (pair ByPreRun)
                   match PreRun cmd with Some f => calls (f d env) | None => [] end,
             match PreRun cmd with
             | Some f => match result (f d env) with
                         | Returned (Some err) => Ret (Some err)
                         | Returned None => Val tt
                         | Panicked v => Pan v
                         end
             | None => Val tt
             end)) as Hpre.
  { intros d t. destruct (preRun_extends cmd d env t) as (pre & r & -> & Hn & Hs).
    destruct (PreRun cmd) as [f|].
    - by destruct (Hs f eq_refl) as [-> ->].
    - by destruct (Hn eq_refl) as [-> ->]. }
  assert (forall d t, postRunWrap cmd d re t =
            (t ++ map (pair ByPostRun)
                   match PostRun cmd ≫= (.!! re_type re) with
                   | Some f => calls (f d re)
                   | None => []
                   end,
             match PostRun cmd ≫= (.!! re_type re) with
             | Some f => match result (f d re) with
                         | Returned re' => Val re'
                         | Panicked v => Pan v
                         end
             | None => Val re
             end)) as Hpost.
  { intros d t. destruct (postRunWrap_extends cmd d re t) as (post & r & -> & H).
    destruct (PostRun cmd ≫= (.!! re_type re)) as [f|]; by destruct H as [-> ->]. }
  split; [exact Hsel|]. split; [exact Henc|].
  split; [intros Hf; by destruct (Hno Hf)|]. split; [exact Hdata|].
  split; [|split; [exact Htime|split; [intros d; apply Hpre|intros d; apply Hpost]]].
  unfold Executor.prepare. unfold bind at 1. rewrite Hsel.
  destruct r1 as [[]|err|v]; [|reflexivity..].
  unfold bind at 1. rewrite Htime. destruct r2 as [d|err|v]; [|reflexivity..].
  unfold bind at 1. rewrite Hpre.
  destruct (PreRun cmd) as [f|]; simpl.
  - destruct (result (f d env)) as [[err|]|v]; [reflexivity| |reflexivity].
    unfold bind. rewrite Hpost, <- app_assoc.
    by destruct (PostRun cmd ≫= (.!! re_type re)) as [g|];
      [destruct (result (g d re))|].
  - unfold bind. rewrite Hpost, <- app_assoc.
    by destruct (PostRun cmd ≫= (.!! re_type re)) as [g|];
      [destruct (result (g d re))|].
Qed.

Lemma encoder_steps_emit_nothing enc :
  forallb isEncoderStep enc = true ->
  emitCalls enc = [] /\ closeCalls enc = [].
Proof.
  induction enc as [|[[] []] enc IH]; simpl; try discriminate; try done.
Qed.

Lemma wind_down_installs_nothing tail :
  forallb isWindDown tail = true -> setEncoderCalls tail = [].
Proof.
  induction tail as [|[[] []] tail IH]; simpl; try discriminate; try done.
Qed.

(** X1: whatever the request, the history of [Execute] falls into five
    stretches in this order: its own encoder installation, the calls of
    [PreRun], the calls of [PostRun], the calls of [Run], and its own
    deferred calls (emitting a recovered error, logging, closing).
    [Execute] touches the emitter at no other time. *)
Theorem Execute_history_in_phases req re env :
  exists enc pre post run tail,
    (Execute req re env).1 =
      enc ++ map (pair ByPreRun) pre ++ map (pair ByPostRun) post ++
      map (pair ByRun) run ++ tail /\
    forallb isEncoderStep enc = true /\
    forallb isWindDown tail = true.
Proof.
  unfold Executor.Execute.
  destruct (Run (req_Command req)) as [run|];
    [|by exists [], [], [], [], []].
  destruct (CheckArguments _ _); [by exists [], [], [], [], []|].
  destruct (prepare_steps (req_Command req) req re env)
    as (enc & r1 & r2 & pre & r3 & post & r4 & _ & Henc & _ & _ & -> & _).
  destruct r1 as [[]|err|v];
    [|exists enc, [], [], [], []; by rewrite !app_nil_r..].
  destruct r2 as [d|err|v];
    [|exists enc, [], [], [], []; by rewrite !app_nil_r..].
  destruct (r3 d) as [[]|err|v];
    [|exists enc, (pre d), [], [], []; by rewrite !app_nil_r..].
  destruct (r4 d) as [re'|err|v];
    [|exists enc, (pre d), (post d), [], []; by rewrite !app_nil_r..].
  destruct (runGuarded_extends run d re' env
              (enc ++ map (pair ByPreRun) (pre d) ++ map (pair ByPostRun) (post d)))
    as (tail & -> & Htail).
  exists enc, (pre d), (post d), (calls (run d re' env)), tail.
  by rewrite <- !app_assoc.
Qed.

Lemma Execute_history_in_phases_aux req re env :
  re_encoding re = false ->
  exists pre post run tail,
    (Execute req re env).1 =
      map (pair ByPreRun) pre ++ map (pair ByPostRun) post ++
      map (pair ByRun) run ++ tail /\
    forallb isWindDown tail = true.
Proof.
  intros Hre. unfold Executor.Execute.
  destruct (Run (req_Command req)) as [run|];
    [|by exists [], [], [], []].
  destruct (CheckArguments _ _); [by exists [], [], [], []|].
  destruct (prepare_steps (req_Command req) req re env)
    as (enc & r1 & r2 & pre & r3 & post & r4 & _ & _ & Hno & _ & -> & _).
  rewrite (Hno Hre).
  destruct r1 as [[]|err|v]; [|by exists [], [], [], []..].
  destruct r2 as [d|err|v]; [|by exists [], [], [], []..].
  destruct (r3 d) as [[]|err|v];
    [|exists (pre d), [], [], []; by rewrite !app_nil_r..].
  destruct (r4 d) as [re'|err|v];
    [|exists (pre d), (post d), [], []; by rewrite !app_nil_r..].
  cbn [app].
  destruct (runGuarded_extends run d re' env
              (map (pair ByPreRun) (pre d) ++ map (pair ByPostRun) (post d)))
    as (tail & -> & Htail).
  exists (pre d), (post d), (calls (run d re' env)), tail.
  by rewrite <- !app_assoc.
Qed.

(** X2: an emitter without the encoder-swap capability is left out of
    encoder selection altogether: [Execute] installs no encoder on it, and
    what [Execute] does is the same whatever [GetEncoding] answers for the
    request, whatever the global encoder table holds and whatever the Text
    and JSON tags are. *)
Theorem Execute_ignores_encoding_without_capability
    GetEncoding' GlobalEncoders' Text' JSON' req re env :
  re_encoding re = false ->
  setEncoderCalls (Execute req re env).1 = [] /\
  Executor.Execute ErrNotCallable CheckArguments GetEncoding' GlobalEncoders'
    Text' JSON' TimeoutOpt ParseDuration req re env = Execute req re env.
Proof.
  intros Hre. split.
  - destruct (Execute_history_in_phases_aux req re env Hre)
      as (pre & post & run & tail & -> & Htail).
    unfold setEncoderCalls. rewrite !omap_app.
    rewrite !omap_user_calls by (exact setEncoderOf_own || discriminate).
    by apply wind_down_installs_nothing.
  - unfold Executor.Execute, Executor.prepare, Executor.selectEncoder.
    by rewrite Hre.
Qed.

Lemma prepare_emits_nothing cmd req re env t0 r :
  prepare cmd req re env [] = (t0, r) -> emitCalls t0 = [].
Proof.
  destruct (prepare_steps cmd req re env)
    as (enc & r1 & r2 & pre & r3 & post & r4 & _ & Henc & _ & _ & -> & _).
  apply encoder_steps_emit_nothing in Henc as [Henc _].
  unfold emitCalls in *.
  destruct r1 as [[]|?|?]; [|by intros [= <- _]..].
  destruct r2 as [d|?|?]; [|by intros [= <- _]..].
  destruct (r3 d) as [[]|?|?]; intros [= <- _]; rewrite !omap_app, Henc;
    rewrite !omap_user_calls by (exact emitOf_own || discriminate); done.
Qed.

(** X4: a request whose context is nil and whose timeout option parses
    makes [Execute] panic when it derives the timeout context: before
    [PreRun], before the recovery guard is registered, and without closing
    the emitter. *)
Theorem Execute_timeout_needs_context req re env run t0 s timeout :
  Run (req_Command req) = Some run ->
  CheckArguments (req_Command req) (req_data req) = None ->
  selectEncoder (req_Command req) req re [] = (t0, Val tt) ->
  Options (req_data req) !! TimeoutOpt = Some (VString s) ->
  ParseDuration s = inl timeout ->
  Context (req_data req) = ctxNil ->
  exists v,
    Execute req re env = (t0, Panic v) /\
    closeCalls t0 = [] /\
    Forall (fun ev => ev.1 = ByExecute) t0.
Proof.
  intros Hrun Hargs Hsel Hopt Hparse Hctx.
  eexists. split; [|split].
  - unfold Executor.Execute. rewrite Hrun, Hargs.
    unfold Executor.prepare. unfold bind at 1. rewrite Hsel.
    unfold bind at 1. unfold Executor.applyTimeout. rewrite Hopt, Hparse.
    unfold bind, WithTimeout. rewrite Hctx. reflexivity.
  - destruct (selectEncoder_extends (req_Command req) req re [])
      as (enc & r & Hext & Henc & _).
    rewrite Hsel in Hext. injection Hext as -> _.
    by apply encoder_steps_emit_nothing in Henc as [_ ?].
  - destruct (selectEncoder_extends (req_Command req) req re [])
      as (enc & r & Hext & Henc & _).
    rewrite Hsel in Hext. injection Hext as -> _. simpl.
    clear -Henc. induction enc as [|[[] c] enc IH]; simpl in *;
      try discriminate; [done|].
    constructor; [done|]. apply IH. by destruct c.
Qed.

(** X5: [PreRun] runs outside the recovery guard.  When it returns an
    error, [Execute] returns that error; when it panics, the panic leaves
    [Execute] even if the value is an error.  Either way neither [PostRun]
    nor [Run] has run and the emitter is not closed. *)
Theorem Execute_PreRun_is_not_guarded req re env run t0 d f :
  Run (req_Command req) = Some run ->
  CheckArguments (req_Command req) (req_data req) = None ->
  selectEncoder (req_Command req) req re [] = (t0, Val tt) ->
  applyTimeout (req_data req) t0 = (t0, Val d) ->
  PreRun (req_Command req) = Some f ->
  let t1 := t0 ++ map (pair ByPreRun) (calls (f d env)) in
  match result (f d env) with
  | Returned (Some err) => Execute req re env = (t1, Return (Some err))
  | Panicked v => Execute req re env = (t1, Panic v)
  | Returned None => exists t o, Execute req re env = (t1 ++ t, o)
  end.
Proof.
  intros Hrun Hargs Hsel Htime Hpre t1.
  destruct (result (f d env)) as [[err|]|v] eqn:Hres;
    unfold Executor.Execute; rewrite Hrun, Hargs;
    unfold Executor.prepare; unfold bind at 1; rewrite Hsel;
    unfold bind at 1; rewrite Htime;
    unfold bind at 1; unfold preRun at 1; rewrite Hpre;
    unfold bind at 1; unfold invoke at 1; rewrite Hres; fold t1;
    [reflexivity| |reflexivity].
  destruct (postRunWrap_extends (req_Command req) d re t1)
    as (post & r & Hwrap & _).
  unfold bind, pure. rewrite Hwrap.
  destruct r as [re'|err|v]; [|by eexists _, _..].
  destruct (runGuarded_extends run d re' env
              (t1 ++ map (pair ByPostRun) post)) as (tail & Htail & _).
  destruct (runGuarded run d re' env _) as [t o]. simpl in Htail. subst t.
  eexists _, o. by rewrite <- app_assoc.
Qed.

(** X6: once [Run] has been reached, the result of [Execute] is nil when
    [Run] returns, whatever [Run] did to the emitter; it is the result of
    the single [Emit] of the recovery guard, which carries the message and
    code [ErrNormal], when [Run] panics with an error; and it is the same
    panic when [Run] panics with anything else, in which case [Execute]
    emits nothing. *)
Theorem Execute_outcome_after_Run req re env run t0 d re' :
  Run (req_Command req) = Some run ->
  CheckArguments (req_Command req) (req_data req) = None ->
  prepare (req_Command req) req re env [] = (t0, Val (d, re')) ->
  let t1 := t0 ++ map (pair ByRun) (calls (run d re' env)) in
  match result (run d re' env) with
  | Returned _ =>
    (Execute req re env).2 = Return None /\
    emitCalls (Execute req re env).1 = []
  | Panicked v =>
    match as_error v with
    | Some e =>
      (Execute req re env).2 =
        Return (re_Emit re' t1 (VError (Error e) ErrNormal)) /\
      emitCalls (Execute req re env).1 = [(re_id re', VError (Error e) ErrNormal)]
    | None =>
      (Execute req re env).2 = Panic v /\
      emitCalls (Execute req re env).1 = []
    end
  end.
Proof.
  intros Hrun Hargs Hprep t1.
  pose proof (prepare_emits_nothing _ _ _ _ _ _ Hprep) as Hquiet.
  unfold Executor.Execute. rewrite Hrun, Hargs, Hprep.
  destruct (result (run d re' env)) as [[]|v] eqn:Hres.
  - unfold runGuarded. rewrite Hres. simpl. split; [reflexivity|].
    unfold emitCalls in *. rewrite !omap_app, Hquiet.
    by rewrite omap_user_calls by (exact emitOf_own || discriminate).
  - pose proof (runGuarded_panic run d re' env t0 v Hres) as Hguard.
    cbv zeta in Hguard. destruct (as_error v) as [e|] eqn:Herr.
    + destruct Hguard as [Hout Hemit]. split; [exact Hout|].
      by rewrite Hemit, Hquiet.
    + split; [exact Hguard|].
      unfold runGuarded. rewrite Hres, Herr. simpl.
      unfold emitCalls in *. rewrite !omap_app, Hquiet.
      by rewrite omap_user_calls by (exact emitOf_own || discriminate).
Qed.

End ExecutePhases.

(** ** The executor on further concrete requests *)

Section ExecutePhasesExamples.
Import Executor Phases Examples MoreExamples.

Lemma Execute_ignores_encoding_without_capability_witness :
  re_encoding chanEmitter = false /\
  setEncoderCalls
    (Examples.Execute (request noopCmd {[ EncShort := VString "xml" ]})
       chanEmitter noEnv).1 = [] /\
  Executor.Execute ErrNotCallable CheckArguments (fun _ => "protobuf") ∅
    "t" "j" TimeoutOpt ParseDuration
    (request noopCmd {[ EncShort := VString "xml" ]}) chanEmitter noEnv
  = Examples.Execute (request noopCmd {[ EncShort := VString "xml" ]})
      chanEmitter noEnv.
Proof.
  split; [reflexivity|].
  exact (Execute_ignores_encoding_without_capability
           ErrNotCallable CheckArguments GetEncoding GlobalEncoders Text JSON
           TimeoutOpt ParseDuration (fun _ => "protobuf") ∅ "t" "j"
           (request noopCmd {[ EncShort := VString "xml" ]}) chanEmitter noEnv
           eq_refl).
Defined.

Lemma Execute_timeout_needs_context_witness :
  let req := nilContextRequest noopCmd {[ TimeoutOpt := VString "30s" ]} in
  (is_Some (Run noopCmd) /\
   CheckArguments noopCmd (req_data req) = None /\
   Options (req_data req) !! TimeoutOpt = Some (VString "30s") /\
   ParseDuration "30s" = inl 30000000000%Z /\
   Context (req_data req) = ctxNil) /\
  exists v, Examples.Execute req chanEmitter noEnv = ([], Panic v).
Proof.
  cbv zeta.
  assert (Options (req_data (nilContextRequest noopCmd
                               {[ TimeoutOpt := VString "30s" ]})) !! TimeoutOpt
          = Some (VString "30s")) as Hopt by (vm_compute; reflexivity).
  split.
  - split; [eexists; reflexivity|]. split; [reflexivity|].
    split; [exact Hopt|]. split; reflexivity.
  - destruct (Execute_timeout_needs_context
                ErrNotCallable CheckArguments GetEncoding GlobalEncoders Text JSON
                TimeoutOpt ParseDuration
                (nilContextRequest noopCmd {[ TimeoutOpt := VString "30s" ]})
                chanEmitter noEnv noop [] "30s" 30000000000%Z
                eq_refl eq_refl eq_refl Hopt eq_refl eq_refl)
      as (v & Hexec & _).
    exists v. exact Hexec.
Defined.

Lemma Execute_PreRun_is_not_guarded_witness :
  is_Some (Run refusingCmd) /\
  CheckArguments refusingCmd (data ∅) = None /\
  Executor.selectEncoder GetEncoding GlobalEncoders Text JSON refusingCmd
    (request refusingCmd ∅) chanEmitter [] = ([], Val tt) /\
  Executor.applyTimeout TimeoutOpt ParseDuration (data ∅) [] = ([], Val (data ∅)) /\
  is_Some (PreRun refusingCmd) /\
  Examples.Execute (request refusingCmd ∅) chanEmitter noEnv
    = ([], Return (Some (errorString "not now"))).
Proof.
  assert (Executor.applyTimeout TimeoutOpt ParseDuration (data ∅) []
          = ([], Val (data ∅))) as Htime by (vm_compute; reflexivity).
  split; [eexists; reflexivity|]. split; [reflexivity|]. split; [reflexivity|].
  split; [exact Htime|]. split; [eexists; reflexivity|].
  exact (Execute_PreRun_is_not_guarded
           ErrNotCallable CheckArguments GetEncoding GlobalEncoders Text JSON
           TimeoutOpt ParseDuration (request refusingCmd ∅) chanEmitter noEnv
           noop [] (data ∅) _ eq_refl eq_refl eq_refl Htime eq_refl).
Defined.

Lemma Execute_outcome_after_Run_witness :
  is_Some (Run panickingCmd) /\
  CheckArguments panickingCmd (data ∅) = None /\
  Executor.prepare GetEncoding GlobalEncoders Text JSON TimeoutOpt ParseDuration
    panickingCmd (request panickingCmd ∅) chanEmitter noEnv []
    = ([], Val (data ∅, chanEmitter)) /\
  (Examples.Execute (request panickingCmd ∅) chanEmitter noEnv).2 = Return None /\
  emitCalls (Examples.Execute (request panickingCmd ∅) chanEmitter noEnv).1
    = [(1%nat, VError "boom" ErrNormal)].
Proof.
  assert (Executor.prepare GetEncoding GlobalEncoders Text JSON TimeoutOpt
            ParseDuration panickingCmd (request panickingCmd ∅) chanEmitter noEnv []
          = ([], Val (data ∅, chanEmitter))) as Hprep
    by (vm_compute; reflexivity).
  split; [eexists; reflexivity|]. split; [reflexivity|]. split; [exact Hprep|].
  exact (Execute_outcome_after_Run
           ErrNotCallable CheckArguments GetEncoding GlobalEncoders Text JSON
           TimeoutOpt ParseDuration (request panickingCmd ∅) chanEmitter noEnv
           _ _ _ _ eq_refl eq_refl Hprep).
Defined.

End ExecutePhasesExamples.

(** * Further properties of the HTTP bridge *)

Section HandlerPaths.
Import HTTP Handler.

Variable url_Parse : string -> URL + error.
Variable parseRequest :
  context -> HttpRequest -> Executor.Command -> Executor.Request + herror.
Variable rootCall :
  Executor.Command -> Executor.Request -> ResponseWriter -> Env ->
  ResponseWriter * Executor.Outcome.

Local Abbreviation allowReferer := (HTTP.allowReferer url_Parse).
Local Abbreviation ServeHTTP := (HTTP.ServeHTTP url_Parse parseRequest rootCall).

(** X7: [allowOrigin] lets a request through exactly when it carries no
    Origin header, or the allowed origins hold the wildcard or the very
    string of the header. *)
Theorem allowOrigin_iff r cfg :
  allowOrigin r cfg = true <->
  Header_Get (r_Header r) "Origin" = "" \/
  listed (HTTP.AllowedOrigins cfg) (Header_Get (r_Header r) "Origin").
Proof.
  unfold allowOrigin.
  destruct (String.eqb_spec (Header_Get (r_Header r) "Origin") "") as [->|Hne].
  - split; [by left|done].
  - rewrite (rangeOrigins_listed url_Parse). split; [by right|]. by intros [?|?].
Qed.

(** X8: [allowReferer] lets a request through exactly when it carries no
    Referer, or the Referer parses as a URL and the allowed origins hold the
    wildcard or its scheme, "://" and host. *)
Theorem allowReferer_iff r cfg :
  allowReferer r cfg = true <->
  Referer r = "" \/
  exists u, url_Parse (Referer r) = inl u /\
            listed (HTTP.AllowedOrigins cfg) (Scheme u +:+ "://" +:+ Host u).
Proof.
  unfold HTTP.allowReferer.
  destruct (String.eqb_spec (Referer r) "") as [->|Hne].
  - split; [by left|done].
  - destruct (url_Parse (Referer r)) as [u|err].
    + rewrite (rangeOrigins_listed url_Parse). split.
      * intros H. right. by exists u.
      * intros [?|(u' & [= <-] & H)]; done.
    + split; [discriminate|]. intros [?|(u' & [=] & _)]. done.
Qed.

(** X9: with the wildcard among the allowed origins every Origin passes,
    but a Referer still has to parse: a malformed, non-empty Referer is
    refused even then. *)
Theorem wildcard_still_parses_Referer r cfg :
  "*" ∈ HTTP.AllowedOrigins cfg ->
  allowOrigin r cfg = true /\
  (allowReferer r cfg = true <->
   Referer r = "" \/ exists u, url_Parse (Referer r) = inl u).
Proof.
  intros Hstar. split.
  - unfold allowOrigin. destruct (String.eqb _ ""); [done|].
    apply (rangeOrigins_listed url_Parse). by left.
  - unfold HTTP.allowReferer.
    destruct (String.eqb_spec (Referer r) "") as [->|Hne].
    + split; [by left|done].
    + destruct (url_Parse (Referer r)) as [u|err].
      * split; [intros _; right; by exists u|].
        intros _. apply (rangeOrigins_listed url_Parse). by left.
      * split; [discriminate|]. intros [?|(u & [=])]. done.
Qed.

Lemma ServeHTTP_passed i w r :
  contextReady (env i) ->
  allowOrigin r (cfg i) = true ->
  allowReferer r (cfg i) = true ->
  exists before exit,
    before = [LogDebug "incoming API request"] ++
             match env_Context (env i) with
             | Some parent =>
               DeriveContext (ctxWithCancel parent) ::
               (if w_closeNotifier w
                then [WatchClient (ctxWithCancel parent)] else [])
             | None => []
             end ++ [ParseRequest ctxNil] /\
    exit = match env_Context (env i) with
           | Some parent => [Cancel (ctxWithCancel parent)]
           | None => []
           end /\
    ServeHTTP i w r =
      match parseRequest ctxNil r (root i) with
      | inr err =>
        (Write (herror_msg err)
           (WriteHeader (if herror_eqb err ErrNotFound
                         then StatusNotFound else StatusBadRequest) w),
         before ++ exit)
      | inl req =>
        let req' := setRequestContext ctxNil req in
        let w1 := set_Header (setUserHeaders (Headers (cfg i)) (w_Header w)) w in
        let before :=
          before ++ (if env_AddRequest (env i) then [AddRequest req] else []) ++
          [NewResponseEmitter (w_Header w1); Call req'] in
        let exit := (if env_AddRequest (env i) then [Done] else []) ++ exit in
        match rootCall (root i) req' w1 (env i) with
        | (w', Executor.Return None) => (w', before ++ exit)
        | (w', Executor.Return (Some err)) =>
          (http_Error (Error err) StatusInternalServerError w',
           before ++ [HttpError (Error err) StatusInternalServerError] ++ exit)
        | (w', Executor.Panic v) => (w', before ++ exit ++ [LogPanic v])
        end
      end.
Proof.
  intros Hready Hao Har.
  eexists _, _. split; [reflexivity|]. split; [reflexivity|].
  rewrite (ServeHTTP_ready url_Parse parseRequest rootCall i w r Hready).
  unfold HTTP.checkAndDispatch, deriveContext. rewrite Hao, Har. cbn [negb orb].
  destruct (env_Context (env i)) as [parent|];
    destruct (parseRequest ctxNil r (root i)) as [req|err]; cbv zeta beta iota.
  - destruct (env_AddRequest (env i));
      destruct (rootCall _ _ _ _) as [w' [[err|]|v]];
      destruct (w_closeNotifier w); simpl; rewrite <- ?app_assoc; reflexivity.
  - destruct (herror_eqb err ErrNotFound); destruct (w_closeNotifier w);
      simpl; rewrite <- ?app_assoc; reflexivity.
  - destruct (env_AddRequest (env i));
      destruct (rootCall _ _ _ _) as [w' [[err|]|v]];
      simpl; rewrite <- ?app_assoc; reflexivity.
  - destruct (herror_eqb err ErrNotFound); simpl; reflexivity.
Qed.

(** The handler's history when the environment's context is nil. *)
Lemma ServeHTTP_not_ready i w r :
  ~ contextReady (env i) ->
  ServeHTTP i w r = (w, [LogDebug "incoming API request"; LogPanic nilParent]).
Proof.
  intros Hnot. apply ServeHTTP_nil_context.
  unfold contextReady in Hnot.
  destruct (env_Context (env i)) as [[]|]; try (by destruct Hnot). done.
Qed.

Lemma contextReady_dec e : contextReady e \/ ~ contextReady e.
Proof.
  unfold contextReady. destruct (env_Context e) as [[]|]; try (by left).
  right. by intros [].
Qed.

(** X10: the parser is reached exactly when the environment's context, if
    it has one, is not nil and both the Origin check and the Referer check
    let the request through. *)
Theorem ServeHTTP_parses_iff_allowed i w r :
  ParseRequest ctxNil ∈ (ServeHTTP i w r).2 <->
  contextReady (env i) /\
  allowOrigin r (cfg i) = true /\ allowReferer r (cfg i) = true.
Proof.
  split.
  - intros Hin. destruct (contextReady_dec (env i)) as [Hready|Hnot].
    + split; [done|].
      destruct (allowOrigin r (cfg i)) eqn:Hao;
        destruct (allowReferer r (cfg i)) eqn:Har; [done|..];
        (destruct (ServeHTTP_blocked url_Parse parseRequest rootCall i w r Hready)
           as [_ Hnone]; [by auto|]);
        rewrite Forall_forall in Hnone; by specialize (Hnone _ Hin).
    + rewrite (ServeHTTP_not_ready i w r Hnot) in Hin. simpl in Hin.
      rewrite !elem_of_cons, elem_of_nil in Hin. by destruct Hin as [|[|]].
  - intros (Hready & Hao & Har).
    destruct (ServeHTTP_passed i w r Hready Hao Har)
      as (before & exit & -> & _ & ->).
    destruct (parseRequest ctxNil r (root i)) as [req|err]; cbv zeta;
      [destruct (rootCall _ _ _ _) as [w' [[err|]|v]]|]; simpl;
      rewrite ?elem_of_app, ?elem_of_cons; set_solver.
Qed.

(** X11: when the parser is reached and fails, the bridge answers 404 if the error is
    [ErrNotFound] itself and 400 otherwise, writes the error message as the
    body, and calls neither [AddRequest] nor the command. *)
Theorem ServeHTTP_parse_error i w r err :
  contextReady (env i) ->
  allowOrigin r (cfg i) = true ->
  allowReferer r (cfg i) = true ->
  parseRequest ctxNil r (root i) = inr err ->
  let code := if herror_eqb err ErrNotFound
              then StatusNotFound else StatusBadRequest in
  (ServeHTTP i w r).1 = Write (herror_msg err) (WriteHeader code w) /\
  (w_status w = None -> w_status (ServeHTTP i w r).1 = Some code) /\
  w_body (ServeHTTP i w r).1 = w_body w ++ [herror_msg err] /\
  calledRequests (ServeHTTP i w r).2 = [] /\
  existsb isAddRequest (ServeHTTP i w r).2 = false.
Proof.
  intros Hready Hao Har Hparse code.
  destruct (ServeHTTP_passed i w r Hready Hao Har)
    as (before & exit & -> & -> & ->).
  rewrite Hparse. fold code. cbn [fst snd].
  split; [reflexivity|]. split; [by intros Hfresh; simpl; rewrite Hfresh|].
  split; [reflexivity|].
  unfold calledRequests.
  destruct (env_Context (env i)); [destruct (w_closeNotifier w)|]; done.
Qed.

(** X12: on every path out of the handler, panics included, a context is
    derived exactly when the environment offers a non-nil one, whatever was
    derived is cancelled, once, and [done()] runs as often as [AddRequest]
    was called. *)
Theorem ServeHTTP_cleans_up i w r :
  let acts := (ServeHTTP i w r).2 in
  derivedContexts acts =
    match env_Context (env i) with
    | Some parent =>
      match WithCancel parent with
      | inl ctx' => [ctx']
      | inr _ => []
      end
    | None => []
    end /\
  cancelledContexts acts = derivedContexts acts /\
  List.length (List.filter isDone acts) =
    List.length (List.filter isAddRequest acts).
Proof.
  cbv zeta. destruct (contextReady_dec (env i)) as [Hready|Hnot].
  - assert (match env_Context (env i) with
            | Some parent =>
              match WithCancel parent with inl ctx' => [ctx'] | inr _ => [] end
            | None => []
            end
            = match env_Context (env i) with
              | Some parent => [ctxWithCancel parent]
              | None => []
              end) as ->.
    { unfold contextReady in Hready.
      by destruct (env_Context (env i)) as [[]|]. }
    destruct (allowOrigin r (cfg i)) eqn:Hao;
      [destruct (allowReferer r (cfg i)) eqn:Har|].
    + destruct (ServeHTTP_passed i w r Hready Hao Har)
        as (before & exit & -> & -> & ->).
      unfold derivedContexts, cancelledContexts.
      destruct (parseRequest ctxNil r (root i)) as [req|err]; cbv zeta;
        [destruct (rootCall _ _ _ _) as [w' [[err|]|v]];
         destruct (env_AddRequest (env i))|];
        destruct (env_Context (env i)); try destruct (w_closeNotifier w); done.
    + rewrite (ServeHTTP_ready url_Parse parseRequest rootCall i w r Hready).
      unfold HTTP.checkAndDispatch, deriveContext, derivedContexts,
        cancelledContexts.
      rewrite Hao, Har.
      destruct (env_Context (env i)); try destruct (w_closeNotifier w); done.
    + rewrite (ServeHTTP_ready url_Parse parseRequest rootCall i w r Hready).
      unfold HTTP.checkAndDispatch, deriveContext, derivedContexts,
        cancelledContexts.
      rewrite Hao.
      destruct (env_Context (env i)); try destruct (w_closeNotifier w); done.
  - rewrite (ServeHTTP_not_ready i w r Hnot).
    unfold contextReady in Hnot.
    destruct (env_Context (env i)) as [[]|]; try (by destruct Hnot). done.
Qed.

(** X13: when the request is dispatched (the environment's context, if
    any, is not nil, both checks pass and the parser succeeds), the command is called once, with
    the parsed request and a writer whose header map already holds the
    user's headers.  An error it returns becomes one [http.Error] with
    status 500; otherwise the handler writes nothing after the call, and a
    panic is logged after the deferred calls have run. *)
Theorem ServeHTTP_call_outcome i w r req w' o :
  contextReady (env i) ->
  allowOrigin r (cfg i) = true ->
  allowReferer r (cfg i) = true ->
  parseRequest ctxNil r (root i) = inl req ->
  rootCall (root i) (setRequestContext ctxNil req)
    (set_Header (setUserHeaders (Headers (cfg i)) (w_Header w)) w) (env i)
    = (w', o) ->
  match o with
  | Executor.Return (Some _) => True
  | _ => (ServeHTTP i w r).1 = w'
  end /\
  calledRequests (ServeHTTP i w r).2 = [setRequestContext ctxNil req] /\
  httpErrors (ServeHTTP i w r).2 =
    match o with
    | Executor.Return (Some err) => [(Error err, StatusInternalServerError)]
    | _ => []
    end /\
  (forall v, o = Executor.Panic v ->
     last (ServeHTTP i w r).2 = Some (LogPanic v)).
Proof.
  intros Hready Hao Har Hparse Hcall.
  destruct (ServeHTTP_passed i w r Hready Hao Har)
    as (before & exit & -> & -> & ->).
  rewrite Hparse. cbv zeta. rewrite Hcall.
  unfold calledRequests, httpErrors.
  destruct o as [[err|]|v]; cbn [fst snd];
    (split; [done|]);
    (split; [destruct (env_Context (env i)); try destruct (w_closeNotifier w);
             destruct (env_AddRequest (env i)); done|]);
    (split; [destruct (env_Context (env i)); try destruct (w_closeNotifier w);
             destruct (env_AddRequest (env i)); done|]);
    intros v'; try discriminate.
  intros [= <-]. rewrite !app_assoc. apply last_snoc.
Qed.

(** X14: a request that is refused or fails to parse gets none of the
    configured headers: the header map of the writer is left as it was and
    the command is not called. *)
Theorem ServeHTTP_error_paths_skip_user_headers i w r :
  allowOrigin r (cfg i) = false \/ allowReferer r (cfg i) = false \/
  (exists err, parseRequest ctxNil r (root i) = inr err) ->
  w_Header (ServeHTTP i w r).1 = w_Header w /\
  calledRequests (ServeHTTP i w r).2 = [].
Proof.
  intros Hcase. destruct (contextReady_dec (env i)) as [Hready|Hnot];
    [|by rewrite (ServeHTTP_not_ready i w r Hnot)].
  destruct (allowOrigin r (cfg i)) eqn:Hao;
    [destruct (allowReferer r (cfg i)) eqn:Har|].
  - destruct Hcase as [?|[?|[err Hparse]]]; [done..|].
    destruct (ServeHTTP_passed i w r Hready Hao Har)
      as (before & exit & -> & -> & ->).
    rewrite Hparse. split; [reflexivity|]. unfold calledRequests.
    destruct (env_Context (env i)); try destruct (w_closeNotifier w); done.
  - rewrite (ServeHTTP_ready url_Parse parseRequest rootCall i w r Hready).
    unfold HTTP.checkAndDispatch, deriveContext, calledRequests.
    rewrite Hao, Har.
    destruct (env_Context (env i)); try destruct (w_closeNotifier w); done.
  - rewrite (ServeHTTP_ready url_Parse parseRequest rootCall i w r Hready).
    unfold HTTP.checkAndDispatch, deriveContext, calledRequests. rewrite Hao.
    destruct (env_Context (env i)); try destruct (w_closeNotifier w); done.
Qed.

End HandlerPaths.

(** ** The user's headers *)

Section UserHeaders.
Import HTTP.

(** X15: the header loop amounts to laying the configured headers, minus
    the three CORS keys, over the headers the writer already has: configured
    entries win, everything else stays. *)
Theorem setUserHeaders_union (user header : gmap string (list string)) :
  setUserHeaders user header =
    filter (fun kv => skipAPIHeader kv.1 = false) user ∪ header.
Proof.
  apply map_eq. intros k. rewrite setUserHeaders_lookup.
  destruct (skipAPIHeader k) eqn:Hskip.
  - rewrite lookup_union_r; [done|].
    apply map_lookup_filter_None. right. intros v _. simpl. by rewrite Hskip.
  - destruct (user !! k) as [v|] eqn:Hk.
    + symmetry. apply lookup_union_Some_l.
      apply map_lookup_filter_Some. by split.
    + rewrite lookup_union_r; [done|].
      apply map_lookup_filter_None. by left.
Qed.

(** X16: writing the user's headers a second time changes nothing, and no
    header the writer already had is ever removed by it. *)
Theorem setUserHeaders_idempotent (user header : gmap string (list string)) :
  setUserHeaders user (setUserHeaders user header) = setUserHeaders user header /\
  (forall k, is_Some (header !! k) ->
     is_Some (setUserHeaders user header !! k)).
Proof.
  split.
  - apply map_eq. intros k. rewrite !setUserHeaders_lookup.
    destruct (skipAPIHeader k); [done|]. by destruct (user !! k).
  - intros k Hk. rewrite setUserHeaders_lookup.
    destruct (skipAPIHeader k); [done|]. by destruct (user !! k).
Qed.

End UserHeaders.

(** * Properties of the server configuration *)

Section ConfigFacts.
Import HTTP Handler.

Variable url_Parse : string -> URL + error.
Variable parseRequest :
  context -> HttpRequest -> Executor.Command -> Executor.Request + herror.
Variable rootCall :
  Executor.Command -> Executor.Request -> ResponseWriter -> Env ->
  ResponseWriter * Executor.Outcome.

Local Abbreviation allowReferer := (HTTP.allowReferer url_Parse).
Local Abbreviation ServeHTTP := (HTTP.ServeHTTP url_Parse parseRequest rootCall).

(** X17: on a configuration with its CORS options in place, the allowed
    origins read back are the ones set, then the ones set followed by the
    ones appended; neither setter touches the methods or the headers. *)
Theorem Config_origins_round_trip c o origins more :
  corsOpts c = Some o ->
  exists c1 c2,
    SetAllowedOrigins origins c = Executor.Returned c1 /\
    AllowedOrigins c1 = Executor.Returned origins /\
    AppendAllowedOrigins more c1 = Executor.Returned c2 /\
    AllowedOrigins c2 = Executor.Returned (origins ++ more) /\
    AllowedMethods c2 = AllowedMethods c /\
    cfg_Headers c2 = cfg_Headers c.
Proof.
  intros Ho. unfold SetAllowedOrigins, AppendAllowedOrigins, AllowedMethods.
  rewrite Ho. eexists _, _. split; [reflexivity|]. simpl.
  split; [reflexivity|]. split; [reflexivity|]. done.
Qed.

(** X18: setting the origins discards whatever was set or appended before,
    and two appends add up, on any configuration; but on a configuration
    without CORS options, setting the methods first makes a later
    [SetAllowedOrigins] succeed, while the other order panics. *)
Theorem Config_setters_compose c a b methods :
  andThen (SetAllowedOrigins a c) (SetAllowedOrigins b) = SetAllowedOrigins b c /\
  andThen (AppendAllowedOrigins a c) (SetAllowedOrigins b) = SetAllowedOrigins b c /\
  andThen (AppendAllowedOrigins a c) (AppendAllowedOrigins b)
    = AppendAllowedOrigins (a ++ b) c /\
  (corsOpts c = None ->
   andThen (SetAllowedOrigins a c) (SetAllowedMethods methods)
     = Executor.Panicked nilDereference /\
   exists c', andThen (SetAllowedMethods methods c) (SetAllowedOrigins a)
                = Executor.Returned c' /\
              AllowedOrigins c' = Executor.Returned a /\
              AllowedMethods c' = Executor.Returned methods).
Proof.
  unfold SetAllowedOrigins, AppendAllowedOrigins, SetAllowedMethods, andThen.
  destruct (corsOpts c) as [o|] eqn:Ho; simpl; rewrite ?Ho.
  - split; [done|]. split; [done|]. split; [by rewrite <- app_assoc|done].
  - split; [done|]. split; [done|]. split; [done|].
    intros _. split; [done|]. by eexists.
Qed.

(** X19: on a zero-value configuration, whose CORS options are nil, every
    accessor panics with a nil dereference except [SetAllowedMethods], which
    allocates the options; after it the origins are empty and credentials
    are off. *)
Theorem Config_zero_value c origins methods flag :
  corsOpts c = None ->
  AllowedOrigins c = Executor.Panicked nilDereference /\
  AllowedMethods c = Executor.Panicked nilDereference /\
  SetAllowedOrigins origins c = Executor.Panicked nilDereference /\
  AppendAllowedOrigins origins c = Executor.Panicked nilDereference /\
  SetAllowCredentials flag c = Executor.Panicked nilDereference /\
  exists c',
    SetAllowedMethods methods c = Executor.Returned c' /\
    corsOpts c' = Some {| cors_AllowedOrigins := [];
                          cors_AllowedMethods := methods;
                          cors_AllowCredentials := false |} /\
    cfg_Headers c' = cfg_Headers c.
Proof.
  intros Ho.
  unfold AllowedOrigins, AllowedMethods, SetAllowedOrigins,
    AppendAllowedOrigins, SetAllowCredentials, SetAllowedMethods.
  rewrite Ho. repeat split. by eexists.
Qed.

(** X20: a handler running on a fresh [NewServerConfig], with an
    environment whose context, if it has one, is not nil, refuses every
    request that carries an Origin or a Referer: it answers 403 and calls
    nothing. *)
Theorem NewServerConfig_refuses_browsers i w r :
  contextReady (env i) ->
  served NewServerConfig = Some (cfg i) ->
  Header_Get (r_Header r) "Origin" <> "" \/ Referer r <> "" ->
  (ServeHTTP i w r).1 = Write "403 - Forbidden" (WriteHeader StatusForbidden w) /\
  Forall (fun a => dispatches a = false) (ServeHTTP i w r).2.
Proof.
  intros Hready [= Hcfg] Hbrowser.
  apply ServeHTTP_blocked; [exact Hready|]. rewrite <- Hcfg.
  destruct Hbrowser as [Ho|Hr].
  - left. unfold allowOrigin. simpl.
    by destruct (String.eqb_spec (Header_Get (r_Header r) "Origin") "").
  - right. unfold HTTP.allowReferer. simpl.
    destruct (String.eqb_spec (Referer r) ""); [done|].
    by destruct (url_Parse (Referer r)).
Qed.

(** X21: appending origins never shuts out a request that was let through
    before, and appending the wildcard lets every Origin through; the
    headers served are not affected. *)
Theorem AppendAllowedOrigins_only_opens c c' s s' more r :
  served c = Some s ->
  AppendAllowedOrigins more c = Executor.Returned c' ->
  served c' = Some s' ->
  Headers s' = Headers s /\
  HTTP.AllowedOrigins s' = HTTP.AllowedOrigins s ++ more /\
  (allowOrigin r s = true -> allowOrigin r s' = true) /\
  (allowReferer r s = true -> allowReferer r s' = true) /\
  ("*" ∈ more -> allowOrigin r s' = true).
Proof.
  unfold served, AppendAllowedOrigins.
  destruct (corsOpts c) as [o|]; [|discriminate].
  intros [= <-] [= <-]. simpl. intros [= <-]. simpl.
  assert (forall origin,
            rangeOrigins (cors_AllowedOrigins o) origin = true ->
            rangeOrigins (cors_AllowedOrigins o ++ more) origin = true) as Hmono.
  { intros origin. rewrite !(rangeOrigins_listed url_Parse). unfold listed.
    rewrite !elem_of_app. tauto. }
  split; [done|]. split; [done|]. split; [|split].
  - unfold allowOrigin. simpl. destruct (String.eqb _ ""); [done|]. apply Hmono.
  - unfold HTTP.allowReferer. simpl. destruct (String.eqb _ ""); [done|].
    destruct (url_Parse (Referer r)); [apply Hmono|done].
  - intros Hstar. unfold allowOrigin. simpl.
    destruct (String.eqb _ ""); [done|].
    apply (rangeOrigins_listed url_Parse). left. apply elem_of_app. by right.
Qed.

End ConfigFacts.

(** * Properties of the string helpers *)

Section StringFacts.
Import HTTP Handler.

Lemma append_assoc (a b c : string) : (a +:+ b) +:+ c = a +:+ (b +:+ c).
Proof.
  induction a as [|x a IH]; [done|].
  change (String.String x ((a +:+ b) +:+ c) = String.String x (a +:+ (b +:+ c))).
  by rewrite IH.
Qed.

Lemma Split_nonempty s sep : Split s sep <> [].
Proof.
  destruct s as [|c s]; simpl; [done|].
  destruct (Ascii.eqb c sep); [done|]. by destruct (Split s sep).
Qed.

(** The first piece is what comes before the first separator. *)
Lemma first_Split_prefix s sep :
  exists rest, s = first (Split s sep) +:+ rest.
Proof.
  induction s as [|c s [rest IH]]; simpl; [by exists ""|].
  destruct (Ascii.eqb c sep); [by exists (String.String c s)|].
  destruct (Split s sep) as [|piece pieces] eqn:Hs;
    [by destruct (Split_nonempty s sep)|].
  exists rest. cbn [first] in *. change (String.String c s =
    String.String c (piece +:+ rest)). by f_equal.
Qed.

Lemma first_Split_keeps_out s sep c :
  ~ In c (list_ascii_of_string s) ->
  ~ In c (list_ascii_of_string (first (Split s sep))).
Proof.
  induction s as [|a s IH]; simpl; [tauto|]. intros Hout.
  destruct (Ascii.eqb a sep); [simpl; tauto|].
  destruct (Split s sep) as [|piece pieces] eqn:Hs;
    [by destruct (Split_nonempty s sep)|].
  simpl in *. tauto.
Qed.

Lemma first_Split_free s sep :
  ~ In sep (list_ascii_of_string (first (Split s sep))).
Proof.
  induction s as [|a s IH]; simpl; [tauto|].
  destruct (Ascii.eqb_spec a sep) as [->|Hne]; [simpl; tauto|].
  destruct (Split s sep) as [|piece pieces] eqn:Hs;
    [by destruct (Split_nonempty s sep)|].
  simpl in *. intros [?|?]; [congruence|tauto].
Qed.

Lemma first_Split_id s sep :
  ~ In sep (list_ascii_of_string s) -> first (Split s sep) = s.
Proof.
  induction s as [|a s IH]; simpl; [done|]. intros Hout.
  destruct (Ascii.eqb_spec a sep) as [->|Hne]; [tauto|].
  destruct (Split s sep) as [|piece pieces] eqn:Hs;
    [by destruct (Split_nonempty s sep)|].
  simpl in *. rewrite IH; [done|tauto].
Qed.

(** X22: the sanitized error string is the beginning of the error message
    and holds neither a line feed nor a carriage return. *)
Theorem sanitizedErrStr_single_line err :
  (exists rest, Error err = sanitizedErrStr err +:+ rest) /\
  ~ In LF (list_ascii_of_string (sanitizedErrStr err)) /\
  ~ In CR (list_ascii_of_string (sanitizedErrStr err)).
Proof.
  unfold sanitizedErrStr. cbv zeta. split; [|split].
  - destruct (first_Split_prefix (Error err) LF) as [rest1 H1].
    destruct (first_Split_prefix (first (Split (Error err) LF)) CR) as [rest2 H2].
    exists (rest2 +:+ rest1). rewrite <- append_assoc, <- H2. exact H1.
  - apply first_Split_keeps_out, first_Split_free.
  - apply first_Split_free.
Qed.

(** X23: sanitizing leaves an error message as it is exactly when the
    message has no line feed and no carriage return, and sanitizing what was
    already sanitized changes nothing. *)
Theorem sanitizedErrStr_fixed_points err :
  (sanitizedErrStr err = Error err <->
   ~ In LF (list_ascii_of_string (Error err)) /\
   ~ In CR (list_ascii_of_string (Error err))) /\
  sanitizedErrStr (errorString (sanitizedErrStr err)) = sanitizedErrStr err.
Proof.
  assert (forall s,
            ~ In LF (list_ascii_of_string s) -> ~ In CR (list_ascii_of_string s) ->
            first (Split (first (Split s LF)) CR) = s) as Hid.
  { intros s Hlf Hcr. rewrite (first_Split_id s LF Hlf). by apply first_Split_id. }
  split; [split|].
  - unfold sanitizedErrStr. cbv zeta. intros Heq. rewrite <- Heq. split.
    + apply first_Split_keeps_out, first_Split_free.
    + apply first_Split_free.
  - intros [Hlf Hcr]. by apply Hid.
  - unfold sanitizedErrStr at 1. cbv zeta. simpl. apply Hid.
    + unfold sanitizedErrStr. apply first_Split_keeps_out, first_Split_free.
    + unfold sanitizedErrStr. apply first_Split_free.
Qed.

Lemma prefix_spec p s :
  String.prefix p s = true <-> exists rest, s = p +:+ rest.
Proof.
  revert s. induction p as [|a p IH]; intros s.
  - split; [intros _; by exists s|]. by destruct s.
  - destruct s as [|b s]; simpl.
    + split; [discriminate|]. intros [rest [=]].
    + destruct (Ascii.ascii_dec a b) as [->|Hne].
      * rewrite IH. split; intros [rest H]; exists rest.
        -- cbn [String.append]. by rewrite H.
        -- cbn [String.append] in H. by injection H.
      * split; [discriminate|]. intros [rest H].
        cbn [String.append] in H. injection H as ? _. congruence.
Qed.

Lemma Contains_spec s substr :
  Contains s substr = true <->
  exists before rest, s = before +:+ substr +:+ rest.
Proof.
  induction s as [|a s IH]; cbn [Contains].
  - rewrite orb_false_r, prefix_spec. split.
    + intros [rest H]. by exists "", rest.
    + intros (before & rest & H). destruct before; [by exists rest|discriminate].
  - rewrite orb_true_iff, prefix_spec, IH. split.
    + intros [[rest H]|(before & rest & H)].
      * by exists "", rest.
      * exists (String.String a before), rest. simpl. by rewrite H.
    + intros (before & rest & H). destruct before as [|b before].
      * left. by exists rest.
      * right. injection H as _ H. by exists before, rest.
Qed.

(** X24: [apiVersionMatches] accepts a request exactly when its User-Agent
    equals the daemon's version string or does not contain "/go-ipfs/"; an
    empty User-Agent falls under the second case.  The error it returns
    otherwise names both versions. *)
Theorem apiVersionMatches_iff ApiVersion r :
  (apiVersionMatches ApiVersion r = None <->
   UserAgent r = ApiVersion \/
   ~ exists before rest, UserAgent r = before +:+ "/go-ipfs/" +:+ rest) /\
  (forall err, apiVersionMatches ApiVersion r = Some err ->
     Error err = "api version mismatch (" +:+ ApiVersion +:+ " != " +:+
                 UserAgent r +:+ ")").
Proof.
  unfold apiVersionMatches. cbv zeta.
  destruct (String.eqb_spec (UserAgent r) "") as [Hempty|Hne]; simpl.
  - split; [|discriminate]. split; [|done]. intros _. right.
    rewrite Hempty. intros (before & rest & H).
    destruct before; discriminate.
  - destruct (Contains (UserAgent r) "/go-ipfs/") eqn:Hc; simpl.
    + apply Contains_spec in Hc.
      destruct (String.eqb_spec ApiVersion (UserAgent r)) as [Heq|Hdiff]; simpl.
      * split; [|discriminate]. split; [by left|done].
      * split; [|by intros err [= <-]].
        split; [discriminate|]. intros [?|?]; [congruence|contradiction].
    + split; [|discriminate]. split; [|done]. intros _. right.
      rewrite <- Contains_spec. by rewrite Hc.
Qed.

End StringFacts.

(** ** The bridge and its configuration on concrete inputs *)

Section HandlerPathsExamples.
Import HTTP Handler Examples MoreExamples.

(** With an environment whose context is nil the handler panics on line
    139, before the origin checks: nothing is written, whatever the Origin. *)
Example ServeHTTP_nil_environment_context :
  HTTP.ServeHTTP url_Parse parseRequest rootCall
    (handler nilEnv ∅ ["https://good.example"]) freshWriter
    (get "/api/v0/id" {[ "Origin" := ["https://evil.example"] ]})
  = (freshWriter, [LogDebug "incoming API request"; LogPanic nilParent]).
Proof. vm_compute. reflexivity. Qed.

Lemma wildcard_still_parses_Referer_witness :
  let r := get "/api/v0/id" {[ "Referer" := ["::not a url"] ]} in
  let c := {| Headers := ∅; HTTP.AllowedOrigins := ["*"] |} in
  "*" ∈ HTTP.AllowedOrigins c /\
  allowOrigin r c = true /\
  (HTTP.allowReferer url_Parse r c = true <->
   Referer r = "" \/ exists u, url_Parse (Referer r) = inl u).
Proof.
  cbv zeta.
  assert ("*" ∈ HTTP.AllowedOrigins {| Headers := ∅; HTTP.AllowedOrigins := ["*"] |})
    as Hstar by (simpl; rewrite elem_of_cons; by left).
  split; [exact Hstar|].
  exact (wildcard_still_parses_Referer url_Parse
           (get "/api/v0/id" {[ "Referer" := ["::not a url"] ]}) _ Hstar).
Defined.

Lemma ServeHTTP_parse_error_witness :
  let i := handler noEnv {[ "Server" := ["go-ipfs"] ]} [] in
  let r := get "/api/v0/nope" ∅ in
  (contextReady (env i) /\
   allowOrigin r (cfg i) = true /\
   HTTP.allowReferer url_Parse r (cfg i) = true /\
   parseNotFound ctxNil r (root i) = inr ErrNotFound) /\
  w_status (HTTP.ServeHTTP url_Parse parseNotFound rootCall i freshWriter r).1
    = Some 404%nat /\
  w_body (HTTP.ServeHTTP url_Parse parseNotFound rootCall i freshWriter r).1
    = ["404 page not found"].
Proof.
  cbv zeta.
  assert (allowOrigin (get "/api/v0/nope" ∅)
            (cfg (handler noEnv {[ "Server" := ["go-ipfs"] ]} [])) = true)
    as Hao by (vm_compute; reflexivity).
  assert (HTTP.allowReferer url_Parse (get "/api/v0/nope" ∅)
            (cfg (handler noEnv {[ "Server" := ["go-ipfs"] ]} [])) = true)
    as Har by (vm_compute; reflexivity).
  assert (contextReady (env (handler noEnv {[ "Server" := ["go-ipfs"] ]} [])))
    as Hready by discriminate.
  split; [by repeat split|].
  destruct (ServeHTTP_parse_error url_Parse parseNotFound rootCall
              (handler noEnv {[ "Server" := ["go-ipfs"] ]} []) freshWriter
              (get "/api/v0/nope" ∅) ErrNotFound Hready Hao Har eq_refl)
    as (_ & Hstatus & Hbody & _).
  split; [exact (Hstatus eq_refl)|exact Hbody].
Defined.

Lemma ServeHTTP_call_outcome_witness :
  let i := handler fullEnv ∅ [] in
  let r := get "/api/v0/id" ∅ in
  let req := {| Executor.req_Command := noopCmd;
                Executor.req_data :=
                  {| Context := ctxNil; Options := ∅; Arguments := [] |} |} in
  (contextReady (env i) /\
   allowOrigin r (cfg i) = true /\
   HTTP.allowReferer url_Parse r (cfg i) = true /\
   parseRequest ctxNil r (root i) = inl req) /\
  calledRequests
    (HTTP.ServeHTTP url_Parse parseRequest failingCall i freshWriter r).2
    = [req] /\
  httpErrors (HTTP.ServeHTTP url_Parse parseRequest failingCall i freshWriter r).2
    = [("disk full", 500%nat)].
Proof.
  cbv zeta.
  assert (allowOrigin (get "/api/v0/id" ∅) (cfg (handler fullEnv ∅ [])) = true)
    as Hao by (vm_compute; reflexivity).
  assert (HTTP.allowReferer url_Parse (get "/api/v0/id" ∅)
            (cfg (handler fullEnv ∅ [])) = true)
    as Har by (vm_compute; reflexivity).
  assert (contextReady (env (handler fullEnv ∅ []))) as Hready by discriminate.
  split; [by repeat split|].
  destruct (ServeHTTP_call_outcome url_Parse parseRequest failingCall
              (handler fullEnv ∅ []) freshWriter (get "/api/v0/id" ∅)
              _ _ _ Hready Hao Har eq_refl eq_refl)
    as (_ & Hcalled & Herr & _).
  split; [exact Hcalled|exact Herr].
Defined.

Lemma ServeHTTP_error_paths_skip_user_headers_witness :
  let i := handler noEnv {[ "Server" := ["go-ipfs"] ]} ["https://good.example"] in
  let r := get "/api/v0/id" {[ "Origin" := ["https://evil.example"] ]} in
  allowOrigin r (cfg i) = false /\
  w_Header (Examples.ServeHTTP i freshWriter r).1 = ∅ /\
  calledRequests (Examples.ServeHTTP i freshWriter r).2 = [].
Proof.
  cbv zeta.
  assert (allowOrigin (get "/api/v0/id" {[ "Origin" := ["https://evil.example"] ]})
            (cfg (handler noEnv {[ "Server" := ["go-ipfs"] ]}
                    ["https://good.example"])) = false)
    as Hao by (vm_compute; reflexivity).
  split; [exact Hao|].
  exact (ServeHTTP_error_paths_skip_user_headers url_Parse parseRequest rootCall
           (handler noEnv {[ "Server" := ["go-ipfs"] ]} ["https://good.example"])
           freshWriter
           (get "/api/v0/id" {[ "Origin" := ["https://evil.example"] ]})
           (or_introl Hao)).
Defined.

Lemma Config_origins_round_trip_witness :
  corsOpts NewServerConfig <> None /\
  exists c1 c2,
    SetAllowedOrigins ["https://a.example"] NewServerConfig = Executor.Returned c1 /\
    AppendAllowedOrigins ["https://b.example"] c1 = Executor.Returned c2 /\
    AllowedOrigins c2 = Executor.Returned ["https://a.example"; "https://b.example"].
Proof.
  split; [discriminate|].
  destruct (Config_origins_round_trip NewServerConfig _
              ["https://a.example"] ["https://b.example"] eq_refl)
    as (c1 & c2 & Hset & _ & Happ & Hget & _).
  exists c1, c2. done.
Defined.

Lemma Config_setters_compose_witness :
  corsOpts zeroConfig = None /\
  andThen (SetAllowedOrigins ["*"] zeroConfig) (SetAllowedMethods ["GET"])
    = Executor.Panicked nilDereference /\
  exists c', andThen (SetAllowedMethods ["GET"] zeroConfig) (SetAllowedOrigins ["*"])
               = Executor.Returned c' /\
             AllowedOrigins c' = Executor.Returned ["*"].
Proof.
  split; [reflexivity|].
  destruct (Config_setters_compose zeroConfig ["*"] [] ["GET"])
    as (_ & _ & _ & Hzero).
  destruct (Hzero eq_refl) as (Hpanic & c' & Hok & Horigins & _).
  split; [exact Hpanic|]. by exists c'.
Defined.

Lemma Config_zero_value_witness :
  corsOpts zeroConfig = None /\
  AppendAllowedOrigins ["*"] zeroConfig = Executor.Panicked nilDereference /\
  exists c', SetAllowedMethods ["GET"] zeroConfig = Executor.Returned c' /\
             AllowedOrigins c' = Executor.Returned [].
Proof.
  split; [reflexivity|].
  destruct (Config_zero_value zeroConfig ["*"] ["GET"] true eq_refl)
    as (_ & _ & _ & Happ & _ & c' & Hset & Hopts & _).
  split; [exact Happ|]. exists c'. split; [exact Hset|].
  unfold AllowedOrigins. by rewrite Hopts.
Defined.

Lemma NewServerConfig_refuses_browsers_witness :
  let i := handler noEnv ∅ [] in
  let r := get "/api/v0/id" {[ "Origin" := ["https://webui.example"] ]} in
  contextReady (env i) /\
  served NewServerConfig = Some (cfg i) /\
  Header_Get (r_Header r) "Origin" <> "" /\
  (Examples.ServeHTTP i freshWriter r).1
    = Write "403 - Forbidden" (WriteHeader StatusForbidden freshWriter).
Proof.
  cbv zeta.
  assert (Header_Get
            (r_Header (get "/api/v0/id" {[ "Origin" := ["https://webui.example"] ]}))
            "Origin" <> "") as Horigin by (vm_compute; discriminate).
  assert (contextReady (env (handler noEnv ∅ []))) as Hready by discriminate.
  split; [exact Hready|]. split; [reflexivity|]. split; [exact Horigin|].
  exact (proj1 (NewServerConfig_refuses_browsers url_Parse parseRequest rootCall
                  (handler noEnv ∅ []) freshWriter
                  (get "/api/v0/id" {[ "Origin" := ["https://webui.example"] ]})
                  Hready eq_refl (or_introl Horigin))).
Defined.

Lemma AppendAllowedOrigins_only_opens_witness :
  let r := get "/api/v0/id" {[ "Origin" := ["https://webui.example"] ]} in
  let s := {| Headers := ∅; HTTP.AllowedOrigins := [] |} in
  let s' := {| Headers := ∅; HTTP.AllowedOrigins := ["*"] |} in
  exists c',
    served NewServerConfig = Some s /\
    AppendAllowedOrigins ["*"] NewServerConfig = Executor.Returned c' /\
    served c' = Some s' /\
    allowOrigin r s = false /\
    allowOrigin r s' = true.
Proof.
  cbv zeta. eexists. split; [reflexivity|]. split; [reflexivity|].
  split; [reflexivity|]. split; [vm_compute; reflexivity|].
  destruct (AppendAllowedOrigins_only_opens url_Parse NewServerConfig _ _ _ ["*"]
              (get "/api/v0/id" {[ "Origin" := ["https://webui.example"] ]})
              eq_refl eq_refl eq_refl)
    as (_ & _ & _ & _ & Hopen).
  apply Hopen. rewrite elem_of_cons. by left.
Defined.

End HandlerPathsExamples.
